(** * fedjax/datasets/stackoverflow.py

    A shallow embedding of the federated Stack Overflow dataset module and
    of its tokenizer, with the properties stated about them.

    Python values are modelled as follows.
    - [str] and [bytes] are [string] (a sequence of 8-bit characters; text is
      taken in its one-byte-per-character range).
    - A dict of features ([client_datasets.Examples]) is a [gmap string ndarray].
    - numpy and TensorFlow arrays are the variants of [ndarray]; an int64 or
      int32 entry is a [Z] kept inside its range by [wrap_signed].
    - A raised exception is the [Raise] case of [result].
    - The collaborators that live outside this module (the remote file
      system, the download cache, the SQLite store, the hash used for
      out-of-vocabulary buckets) are variables of the sections below. *)

From Stdlib Require Import ZArith List String Ascii Lia Bool.
From stdpp Require Import base gmap strings list.

Local Open Scope Z_scope.

(** ** Exceptions *)

Inductive value_error : Type :=
| InvalidSplit (split : string)
| CachingNeedsSqlite
| UnsupportedMode (mode : string)
| UnpackExpectedTwo (got : nat)
| IsliceStopOutOfRange
| NonPositiveOovBuckets.

Inductive exn : Type :=
| ValueError (why : value_error)
| KeyError (key : string)
| TypeError
| AttributeError
| FailedPreconditionError
| OSError.

Inductive result (A : Type) : Type :=
| Ok (a : A)
| Raise (e : exn).

Arguments Ok {A} a.
Arguments Raise {A} e.

(** Sequencing: the first exception raised ends the computation. *)
#[global] Instance result_bind : MBind result := fun A B k r =>
  match r with
  | Ok a => k a
  | Raise e => Raise e
  end.

#[global] Instance result_ret : MRet result := fun A a => Ok a.

(** ** Machine integers *)

(** The value a [bits]-wide two's complement integer holds after an
    operation whose exact result is [z]. *)
Definition wrap_signed (bits : Z) (z : Z) : Z :=
  (z + 2 ^ (bits - 1)) mod 2 ^ bits - 2 ^ (bits - 1).

Definition int64_add (a b : Z) : Z := wrap_signed 64 (a + b).

(** [tf.cast(_, tf.int32)] on an int64 value. *)
Definition cast_int32 (z : Z) : Z := wrap_signed 32 z.

Definition in_int32 (z : Z) : Prop := - 2 ^ 31 <= z < 2 ^ 31.

(** ** Python slices *)

(** The bound of a slice, clamped the way Python does: a negative index
    counts from the end. *)
Definition slice_index {A : Type} (l : list A) (i : Z) : nat :=
  Z.to_nat (if i <? 0 then Z.max 0 (Z.of_nat (length l) + i) else i).

(** [l[:stop]] *)
Definition slice_to {A : Type} (stop : Z) (l : list A) : list A :=
  take (slice_index l stop) l.

(** [l[start:]] *)
Definition slice_from {A : Type} (start : Z) (l : list A) : list A :=
  drop (slice_index l start) l.

(** [l[start:stop]] *)
Definition slice {A : Type} (start stop : Z) (l : list A) : list A :=
  drop (slice_index l start) (take (slice_index l stop) l).

(** ** Splitting strings *)

(** [tf.strings.split(s, sep=c)] for a one-character separator, which is
    Python's [s.split(c)]: consecutive separators delimit empty words, and
    the empty string splits into one empty word. *)
Fixpoint split_on (sep : ascii) (s : string) : list string :=
  match s with
  | EmptyString => [EmptyString]
  | String c s' =>
      if decide (c = sep) then EmptyString :: split_on sep s'
      else match split_on sep s' with
           | w :: ws => String c w :: ws
           | [] => [String c EmptyString]
           end
  end.

(** [str.isspace] on the characters below 256. *)
Definition is_space (c : ascii) : bool :=
  let n := nat_of_ascii c in
  ((9 <=? n) && (n <=? 13) || (28 <=? n) && (n <=? 32)
   || (n =? 133) || (n =? 160))%nat.

(** Python's [s.split()] with no separator: the maximal runs of
    characters that are not whitespace. *)
Fixpoint split_whitespace (s : string) : list string :=
  match s with
  | EmptyString => []
  | String c s' =>
      if is_space c then split_whitespace s'
      else match s' with
           | EmptyString => [String c EmptyString]
           | String c' _ =>
               if is_space c' then String c EmptyString :: split_whitespace s'
               else match split_whitespace s' with
                    | w :: ws => String c w :: ws
                    | [] => [String c EmptyString]
                    end
           end
  end.

(** ** Arrays *)

Inductive ndarray : Type :=
| BytesArray (a : list string)              (* [N], dtype=object holding bytes *)
| Int64Array (a : list Z)                   (* [N] int64 *)
| Int32Array (a : list Z)                   (* [N] int32 *)
| Int32Matrix (cols : nat) (rows : list (list Z)).   (* [N, cols] int32 *)

(** [RaggedTensor.to_tensor(default_value, shape=[None, cols])]: every row
    is cut to [cols] entries and filled up with [default_value]. *)
Definition row_to_tensor (default_value : Z) (cols : nat) (row : list Z) : list Z :=
  take cols row ++ replicate (cols - length row)%nat default_value.

Definition to_tensor (default_value : Z) (cols : nat) (rows : list (list Z))
  : list (list Z) :=
  map (row_to_tensor default_value cols) rows.

(** ** The vocabulary loader *)

(** [sys.maxsize] *)
Definition sys_maxsize : Z := 2 ^ 63 - 1.

Section VocabularyLoader.

(** [tf.io.gfile.GFile(path)] read line by line. The file is opened by
    the first read, not when the object is made: the lines the reads yield
    (each with its line terminator), or the error the first read raises. *)
Variable GFile : string -> result (list string).

Definition word_count_path : string :=
  "gs://gresearch/fedjax/stackoverflow/stackoverflow.word_count".

(** [itertools.islice(f, stop)] read to its end, over a source [f] that
    yields its lines or fails at its first read. The stop is checked when
    the slice is made, before anything is read: it is [None] or an integer
    from 0 to [sys.maxsize]. With [stop = 0] nothing is read at all. *)
Definition islice {A : Type} (f : result (list A)) (stop : option Z)
  : result (list A) :=
  match stop with
  | None => f
  | Some n =>
      if (n <? 0) || (sys_maxsize <? n)
      then Raise (ValueError IsliceStopOutOfRange)
      else if n =? 0 then Ok []
      else lines ← f; Ok (take (Z.to_nat n) lines)
  end.

(** [word, _ = line.split()] *)
Definition unpack_word (line : string) : result string :=
  match split_whitespace line with
  | [word; _] => Ok word
  | fields => Raise (ValueError (UnpackExpectedTwo (length fields)))
  end.

(** The [for] loop of [default_vocab], with the list built so far. *)
Fixpoint default_vocab_loop (lines : list string) (vocab : list string)
  : result (list string) :=
  match lines with
  | [] => Ok vocab
  | line :: rest =>
      word ← unpack_word line;
      default_vocab_loop rest (vocab ++ [word])
  end.

Definition default_vocab (vocab_size : option Z) : result (list string) :=
  lines ← islice (GFile word_count_path) vocab_size;
  default_vocab_loop lines [].

End VocabularyLoader.

(** ** The tokenizer *)

Definition PAD : Z := 0.
Definition BOS : Z := 1.
Definition EOS : Z := 2.

(** [tf.lookup.StaticVocabularyTable]: the keys in the order given (key
    number [i] has value [i]) and the number of out-of-vocabulary buckets. *)
Record StaticVocabularyTable : Type := {
  table_keys : list string;
  num_oov_buckets : Z
}.

Fixpoint index_of (w : string) (keys : list string) : option nat :=
  match keys with
  | [] => None
  | k :: ks => if decide (k = w) then Some 0%nat else S <$> index_of w ks
  end.

Definition vocab_len (t : StaticVocabularyTable) : Z :=
  Z.of_nat (length (table_keys t)).

Section Tokenizer.

Variable GFile : string -> result (list string).

(** The 64-bit fingerprint TensorFlow hashes an unknown word with. *)
Variable fingerprint64 : string -> N.

(** Building the table fails on a bucket count that is not positive, on
    an empty list of keys (it makes a tensor of floats, not of strings)
    and on a key listed twice (its two values differ). *)
Definition new_table (vocab : list string) (buckets : Z)
  : result StaticVocabularyTable :=
  if buckets <=? 0 then Raise (ValueError NonPositiveOovBuckets)
  else match vocab with
       | [] => Raise TypeError
       | _ :: _ =>
           if decide (NoDup vocab)
           then Ok {| table_keys := vocab; num_oov_buckets := buckets |}
           else Raise FailedPreconditionError
       end.

(** [table.lookup(w)]: the position of a known word, and for any other
    word the vocabulary size plus its hash bucket. *)
Definition table_lookup (t : StaticVocabularyTable) (w : string) : Z :=
  match index_of w (table_keys t) with
  | Some i => Z.of_nat i
  | None => int64_add (Z.of_N (fingerprint64 w) mod num_oov_buckets t) (vocab_len t)
  end.

Definition default_vocab_size : option Z := Some 10000.
Definition default_num_oov_buckets : Z := 1.

(** The vocabulary [__init__] hands to the table. *)
Definition init_vocab (vocab : option (list string)) (vocab_size : option Z)
  : result (list string) :=
  match vocab with
  | None => default_vocab GFile vocab_size
  | Some v =>
      match vocab_size with
      | Some n => Ok (slice_to n v)
      | None => Ok v
      end
  end.

(** [StackoverflowTokenizer.__init__]; the tokenizer is its table. *)
Definition StackoverflowTokenizer (vocab : option (list string))
    (vocab_size : option Z) (buckets : Z) : result StaticVocabularyTable :=
  v ← init_vocab vocab vocab_size;
  new_table v buckets.

(** The rows of [token_ids] after the concatenation with BOS and EOS. *)
Definition token_ids_row (self : StaticVocabularyTable) (tokens : string) : list Z :=
  let words := split_on " "%char tokens in
  let token_ids := map (fun w => int64_add (table_lookup self w) 3) words in
  [BOS] ++ token_ids ++ [EOS].

(** The ragged [x] and [y] of [token_to_ids], before [to_tensor]. *)
Definition x_ragged_row (ids : list Z) : list Z := map cast_int32 (slice_to (-1) ids).
Definition y_ragged_row (ids : list Z) : list Z := map cast_int32 (slice_from 1 ids).

Definition token_to_ids (self : StaticVocabularyTable) (max_length : nat)
    (tokens : list string) : list (list Z) * list (list Z) :=
  let token_ids := map (token_ids_row self) tokens in
  let x := map x_ragged_row token_ids in
  let y := map y_ragged_row token_ids in
  (to_tensor PAD max_length x, to_tensor PAD max_length y).

(** The function [as_preprocess_batch(max_length)] returns. *)
Definition preprocess_batch (self : StaticVocabularyTable) (max_length : nat)
    (examples : gmap string ndarray) : result (gmap string ndarray) :=
  match examples !! "tokens" with
  | None => Raise (KeyError "tokens")
  | Some (BytesArray tokens) =>
      let '(x, y) := token_to_ids self max_length tokens in
      let result := <["y" := Int32Matrix max_length y]>
                      (<["x" := Int32Matrix max_length x]> ∅) in
      Ok match examples !! "domain_id" with
         | Some d => <["domain_id" := d]> result
         | None => result
         end
  | Some _ => Raise TypeError
  end.

End Tokenizer.

(** ** The dataset loader *)

Definition SPLITS : list string := ["train"; "held_out"; "test"].

Definition split_url (split : string) : string :=
  "https://storage.googleapis.com/gresearch/fedjax/stackoverflow/stackoverflow_"
    +:+ split +:+ ".sqlite".

(** [(examples['type'] == b'answer').astype(np.int32)] on a bytes array. *)
Definition is_answer (type : string) : Z :=
  if decide (type = "answer") then 1 else 0.

(** [preprocess_client]. The dict display evaluates [examples['type']]
    before [examples['tokens']]. Comparing an array of numbers with a bytes
    object is not done entry by entry: numpy answers with the plain [False],
    which has no [astype]. *)
Definition preprocess_client (client_id : string) (examples : gmap string ndarray)
  : result (gmap string ndarray) :=
  match examples !! "type" with
  | None => Raise (KeyError "type")
  | Some (BytesArray type) =>
      let domain_id := Int32Array (map is_answer type) in
      match examples !! "tokens" with
      | None => Raise (KeyError "tokens")
      | Some tokens => Ok (<["tokens" := tokens]> (<["domain_id" := domain_id]> ∅))
      end
  | Some _ => Raise AttributeError
  end.

Section DatasetLoader.

(** The handle type of [federated_data.FederatedData], with the two
    collaborators [load_split] calls and the method [load_data] calls. *)
Variable FederatedData : Type.
Variable maybe_download : string -> option string -> result string.
Variable SQLiteFederatedData_new : string -> result FederatedData.
Variable fd_preprocess_client :
  FederatedData ->
  (string -> gmap string ndarray -> result (gmap string ndarray)) ->
  FederatedData.

Definition load_split (split mode : string) (cache_dir : option string)
  : result FederatedData :=
  if decide (split ∉ SPLITS) then Raise (ValueError (InvalidSplit split))
  else if decide (cache_dir ≠ None ∧ mode ≠ "sqlite")
  then Raise (ValueError CachingNeedsSqlite)
  else if decide (mode = "sqlite") then
    path ← maybe_download (split_url split) cache_dir;
    SQLiteFederatedData_new path
  else Raise (ValueError (UnsupportedMode mode)).

Definition load_data (mode : string) (cache_dir : option string)
  : result (FederatedData * FederatedData * FederatedData) :=
  train ← load_split "train" mode cache_dir;
  held_out ← load_split "held_out" mode cache_dir;
  test ← load_split "test" mode cache_dir;
  Ok (fd_preprocess_client train preprocess_client,
      fd_preprocess_client held_out preprocess_client,
      fd_preprocess_client test preprocess_client).

End DatasetLoader.

(** ** Values the statements below refer to *)

(** The tokenizer over the vocabulary [['a', 'b']] with one bucket. *)
Definition tokenizer_a_b : StaticVocabularyTable :=
  {| table_keys := ["a"; "b"]; num_oov_buckets := 1 |}.

(** The fingerprint of the empty string: FarmHash's [Fingerprint64]
    returns its constant [k2 = 0x9ae16a3b2f90404f] on an input of length
    0. *)
Definition fingerprint64_empty : N := 11160318154034397263.

(** The tokenizer over the vocabulary [['a', 'b']] with [10 ^ 10]
    buckets. *)
Definition tokenizer_a_b_wide : StaticVocabularyTable :=
  {| table_keys := ["a"; "b"]; num_oov_buckets := 10000000000 |}.

(** The first whitespace-separated field of a line. *)
Definition first_field (line : string) : string :=
  default "" (head (split_whitespace line)).

(** Words that differ from one another: [k] times the letter [a]. *)
Fixpoint word_of_nat (k : nat) : string :=
  match k with
  | O => ""
  | S k' => String "a" (word_of_nat k')
  end.

(** The number of times [c] occurs in [s]: Python's [s.count(c)]. *)
Fixpoint count_char (c : ascii) (s : string) : nat :=
  match s with
  | EmptyString => 0%nat
  | String c' s' => ((if decide (c' = c) then 1 else 0) + count_char c s')%nat
  end.

(** [sep.join(words)] for a one-character separator. *)
Fixpoint join_with (sep : ascii) (words : list string) : string :=
  match words with
  | [] => ""
  | w :: ws =>
      match ws with
      | [] => w
      | _ :: _ => w +:+ String sep (join_with sep ws)
      end
  end.

(** Whether every character of [s] satisfies [p]. *)
Fixpoint all_chars (p : ascii -> bool) (s : string) : bool :=
  match s with
  | EmptyString => true
  | String c s' => p c && all_chars p s'
  end.

(** * Properties *)

(** ** Machine integers *)

Lemma cast_int32_unfold z :
  cast_int32 z = (z + 2147483648) mod 4294967296 - 2147483648.
Proof. reflexivity. Qed.

Lemma int64_add_unfold a b :
  int64_add a b
  = (a + b + 9223372036854775808) mod 18446744073709551616 - 9223372036854775808.
Proof. reflexivity. Qed.

Lemma in_int32_unfold z : in_int32 z <-> -2147483648 <= z < 2147483648.
Proof. reflexivity. Qed.

Lemma cast_int32_id z : in_int32 z -> cast_int32 z = z.
Proof.
  rewrite in_int32_unfold, cast_int32_unfold. intros Hz.
  rewrite Z.mod_small by lia. lia.
Qed.

Lemma cast_int32_range z : in_int32 (cast_int32 z).
Proof.
  rewrite in_int32_unfold, cast_int32_unfold.
  pose proof (Z.mod_pos_bound (z + 2147483648) 4294967296). lia.
Qed.

Lemma int64_add_exact a b :
  - 2 ^ 63 <= a + b < 2 ^ 63 -> int64_add a b = a + b.
Proof.
  change (2 ^ 63) with 9223372036854775808. intros H.
  rewrite int64_add_unfold, Z.mod_small by lia. lia.
Qed.

Lemma map_cast_int32_id (l : list Z) :
  Forall in_int32 l -> map cast_int32 l = l.
Proof.
  induction 1 as [|z l Hz _ IH]; simpl; [done|].
  by rewrite cast_int32_id, IH.
Qed.

(** ** Slices *)

Lemma slice_to_last {A} (l : list A) :
  slice_to (-1) l = take (length l - 1) l.
Proof.
  unfold slice_to, slice_index. simpl. f_equal. lia.
Qed.

Lemma slice_from_first {A} (l : list A) : slice_from 1 l = drop 1 l.
Proof. reflexivity. Qed.

Lemma slice_to_nonneg {A} (n : Z) (l : list A) :
  0 <= n -> slice_to n l = take (Z.to_nat n) l.
Proof.
  intros Hn. unfold slice_to, slice_index.
  by destruct (Z.ltb_spec n 0); [lia|].
Qed.

Lemma slice_nonneg {A} (i j : Z) (l : list A) :
  0 <= i -> 0 <= j -> slice i j l = drop (Z.to_nat i) (take (Z.to_nat j) l).
Proof.
  intros Hi Hj. unfold slice, slice_index.
  destruct (Z.ltb_spec i 0), (Z.ltb_spec j 0); try lia. done.
Qed.

(** Cutting [l[:-1]] to [n] entries is [l[0 : min(n, len(l) - 1)]]. *)
Lemma take_slice_to_last {A} (n : nat) (l : list A) :
  take n (slice_to (-1) l)
  = slice 0 (Z.min (Z.of_nat n) (Z.of_nat (length l) - 1)) l.
Proof.
  rewrite slice_to_last, take_take.
  destruct l as [|a l].
  { unfold slice, slice_index. simpl. by rewrite !take_nil. }
  rewrite slice_nonneg by (simpl length; lia).
  simpl length. change (Z.to_nat 0) with 0%nat. rewrite drop_0.
  f_equal. lia.
Qed.

(** Cutting [l[1:]] to [n] entries is [l[1 : n + 1]]. *)
Lemma take_slice_from_first {A} (n : nat) (l : list A) :
  take n (slice_from 1 l) = slice 1 (Z.of_nat n + 1) l.
Proof.
  rewrite slice_from_first, slice_nonneg by lia.
  change (Z.to_nat 1) with 1%nat.
  replace (Z.to_nat (Z.of_nat n + 1)) with (S n) by lia.
  destruct l as [|a l]; simpl; [by rewrite take_nil|].
  by rewrite !drop_0.
Qed.

(** ** Dense rows *)

Lemma length_row_to_tensor d cols row : length (row_to_tensor d cols row) = cols.
Proof.
  unfold row_to_tensor. rewrite length_app, length_take, length_replicate. lia.
Qed.

Lemma row_to_tensor_long d cols row :
  (cols <= length row)%nat -> row_to_tensor d cols row = take cols row.
Proof.
  intros H. unfold row_to_tensor.
  replace (cols - length row)%nat with 0%nat by lia. apply app_nil_r.
Qed.

Lemma row_to_tensor_short d cols row :
  (length row <= cols)%nat ->
  row_to_tensor d cols row = row ++ replicate (cols - length row) d.
Proof. intros H. unfold row_to_tensor. by rewrite take_ge. Qed.

Lemma row_to_tensor_take d cols row :
  row_to_tensor d cols row
  = take cols row ++ replicate (cols - length (take cols row)) d.
Proof.
  unfold row_to_tensor. rewrite length_take. do 2 f_equal. lia.
Qed.

Lemma Forall_row_to_tensor (P : Z -> Prop) d cols row :
  P d -> Forall P row -> Forall P (row_to_tensor d cols row).
Proof.
  intros Hd Hrow. unfold row_to_tensor. apply Forall_app. split.
  - by apply Forall_take.
  - by apply Forall_replicate.
Qed.

(** ** The lookup table *)

Lemma index_of_Some w keys i :
  index_of w keys = Some i -> keys !! i = Some w.
Proof.
  revert i. induction keys as [|k ks IH]; intros i; simpl; [done|].
  destruct (decide (k = w)) as [->|Hne].
  - by intros [= <-].
  - destruct (index_of w ks) as [j|] eqn:Hj; simpl; [|done].
    intros [= <-]. by apply IH.
Qed.

Lemma index_of_None w keys : index_of w keys = None <-> w ∉ keys.
Proof.
  induction keys as [|k ks IH]; simpl.
  - split; [intros _; apply not_elem_of_nil | done].
  - rewrite not_elem_of_cons. destruct (decide (k = w)) as [->|Hne].
    + split; [done | by intros [? _]].
    + destruct (index_of w ks) as [j|]; simpl.
      * split; [done|]. intros [_ Hin]. by apply IH in Hin.
      * split; [|done]. intros _. split; [done | by apply IH].
Qed.

Lemma index_of_NoDup w keys i :
  NoDup keys -> keys !! i = Some w -> index_of w keys = Some i.
Proof.
  intros Hnd. revert i. induction Hnd as [|k ks Hk Hnd IH]; intros i; [done|].
  simpl. destruct i as [|i]; simpl.
  - intros [= ->]. by rewrite decide_True.
  - intros Hi. rewrite decide_False.
    + by rewrite (IH i Hi).
    + intros ->. apply Hk. by eapply list_elem_of_lookup_2.
Qed.

Lemma index_of_lt w keys i :
  index_of w keys = Some i -> (i < length keys)%nat.
Proof. intros H. eapply lookup_lt_Some. by apply index_of_Some. Qed.

Section TokenizerFacts.

Variable fingerprint64 : string -> N.

(** The id of a word after the offset, with no wrap-around as long as
    every id is below [2 ^ 63]. *)
Lemma offset_id_exact (self : StaticVocabularyTable) (w : string) :
  0 < num_oov_buckets self ->
  vocab_len self + 3 + num_oov_buckets self <= 2 ^ 63 ->
  int64_add (table_lookup fingerprint64 self w) 3
  = match index_of w (table_keys self) with
    | Some i => Z.of_nat i + 3
    | None => vocab_len self + 3
              + Z.of_N (fingerprint64 w) mod num_oov_buckets self
    end.
Proof.
  intros HB Hfit. unfold table_lookup, vocab_len in *.
  change (2 ^ 63) with 9223372036854775808 in Hfit.
  destruct (index_of w (table_keys self)) as [i|] eqn:Hi.
  - apply index_of_lt in Hi.
    rewrite int64_add_exact; [done|].
    change (2 ^ 63) with 9223372036854775808. lia.
  - pose proof (Z.mod_pos_bound (Z.of_N (fingerprint64 w)) _ HB) as Hb.
    rewrite (int64_add_exact (_ mod _))
      by (change (2 ^ 63) with 9223372036854775808; lia).
    rewrite int64_add_exact
      by (change (2 ^ 63) with 9223372036854775808; lia).
    lia.
Qed.

Lemma offset_id_range (self : StaticVocabularyTable) (w : string) :
  0 < num_oov_buckets self ->
  vocab_len self + 3 + num_oov_buckets self <= 2 ^ 63 ->
  3 <= int64_add (table_lookup fingerprint64 self w) 3
    < vocab_len self + 3 + num_oov_buckets self.
Proof.
  intros HB Hfit. rewrite offset_id_exact by done.
  destruct (index_of w (table_keys self)) as [i|] eqn:Hi.
  - apply index_of_lt in Hi. unfold vocab_len. lia.
  - pose proof (Z.mod_pos_bound (Z.of_N (fingerprint64 w)) _ HB).
    unfold vocab_len. lia.
Qed.

Lemma token_ids_row_range (self : StaticVocabularyTable) (tokens : string) :
  0 < num_oov_buckets self ->
  vocab_len self + 3 + num_oov_buckets self <= 2 ^ 63 ->
  Forall (fun id => 0 <= id < vocab_len self + 3 + num_oov_buckets self)
         (token_ids_row fingerprint64 self tokens).
Proof.
  intros HB Hfit. unfold token_ids_row.
  assert (0 <= vocab_len self) by (unfold vocab_len; lia).
  apply Forall_app. split; [|apply Forall_app; split].
  - apply Forall_singleton. unfold BOS. lia.
  - apply Forall_map, Forall_forall. intros w _.
    pose proof (offset_id_range self w HB Hfit). simpl. lia.
  - apply Forall_singleton. unfold EOS. lia.
Qed.

Lemma length_token_ids_row (self : StaticVocabularyTable) (tokens : string) :
  length (token_ids_row fingerprint64 self tokens)
  = S (S (length (split_on " " tokens))).
Proof.
  unfold token_ids_row. simpl. rewrite length_app, length_map. simpl. lia.
Qed.

End TokenizerFacts.

(** A tokenizer that was built has a positive bucket count and distinct
    keys, and its keys are the vocabulary [__init__] chose. *)
Lemma StackoverflowTokenizer_Ok GFile vocab vocab_size buckets self :
  StackoverflowTokenizer GFile vocab vocab_size buckets = Ok self ->
  init_vocab GFile vocab vocab_size = Ok (table_keys self)
  /\ num_oov_buckets self = buckets
  /\ 0 < buckets
  /\ NoDup (table_keys self).
Proof.
  unfold StackoverflowTokenizer.
  destruct (init_vocab GFile vocab vocab_size) as [v|e]; simpl; [|done].
  unfold new_table. destruct (Z.leb_spec buckets 0); [done|].
  destruct v as [|k v]; [done|].
  destruct (decide (NoDup (k :: v))); [|done].
  intros [= <-]. simpl. auto.
Qed.

Lemma new_table_Ok vocab buckets :
  0 < buckets -> vocab <> [] -> NoDup vocab ->
  new_table vocab buckets = Ok {| table_keys := vocab; num_oov_buckets := buckets |}.
Proof.
  intros HB Hne Hnd. unfold new_table.
  destruct (Z.leb_spec buckets 0); [lia|].
  destruct vocab as [|k vocab]; [done|]. by rewrite decide_True.
Qed.

Lemma StackoverflowTokenizer_nonempty GFile vocab vocab_size buckets self :
  StackoverflowTokenizer GFile vocab vocab_size buckets = Ok self ->
  table_keys self <> [].
Proof.
  unfold StackoverflowTokenizer.
  destruct (init_vocab GFile vocab vocab_size) as [v|e]; simpl; [|done].
  unfold new_table. destruct (Z.leb_spec buckets 0); [done|].
  destruct v as [|k v]; [done|].
  destruct (decide (NoDup (k :: v))); [|done]. by intros [= <-].
Qed.

(** ** The batch transform *)

Lemma slice_map {A B} (f : A -> B) (i j : Z) (l : list A) :
  slice i j (map f l) = map f (slice i j l).
Proof.
  unfold slice, slice_index. rewrite length_map.
  by rewrite <- skipn_map, <- firstn_map.
Qed.

Lemma token_to_ids_rows fingerprint64 self max_length tokens :
  token_to_ids fingerprint64 self max_length tokens
  = (map (fun s => row_to_tensor PAD max_length
                     (x_ragged_row (token_ids_row fingerprint64 self s))) tokens,
     map (fun s => row_to_tensor PAD max_length
                     (y_ragged_row (token_ids_row fingerprint64 self s))) tokens).
Proof.
  unfold token_to_ids, to_tensor. by rewrite !map_map.
Qed.

Lemma split_on_empty sep : split_on sep "" = [""].
Proof. reflexivity. Qed.

Lemma token_ids_row_empty fingerprint64 self :
  token_ids_row fingerprint64 self ""
  = [BOS; int64_add (table_lookup fingerprint64 self "") 3; EOS].
Proof. reflexivity. Qed.

Lemma token_to_ids_empty fingerprint64 self (max_length : nat) :
  (2 <= max_length)%nat ->
  token_to_ids fingerprint64 self max_length [""]
  = ([[BOS; cast_int32 (int64_add (table_lookup fingerprint64 self "") 3)]
        ++ replicate (max_length - 2) PAD],
     [[cast_int32 (int64_add (table_lookup fingerprint64 self "") 3); EOS]
        ++ replicate (max_length - 2) PAD]).
Proof.
  intros HL. rewrite token_to_ids_rows. simpl map.
  rewrite token_ids_row_empty.
  set (w := int64_add (table_lookup fingerprint64 self "") 3).
  assert (Hx : x_ragged_row [BOS; w; EOS] = [BOS; cast_int32 w]) by reflexivity.
  assert (Hy : y_ragged_row [BOS; w; EOS] = [cast_int32 w; EOS]) by reflexivity.
  rewrite Hx, Hy. by rewrite !row_to_tensor_short by (simpl; lia).
Qed.

Lemma tokenizer_a_b_unknown fingerprint64 w :
  w ∉ ["a"; "b"] ->
  int64_add (table_lookup fingerprint64 tokenizer_a_b w) 3 = 5.
Proof.
  intros Hw. rewrite offset_id_exact; [|done..].
  apply (index_of_None w) in Hw. simpl in Hw |- *. rewrite Hw.
  by rewrite Z.mod_1_r.
Qed.

Lemma tokenizer_a_b_empty_row fingerprint64 :
  token_to_ids fingerprint64 tokenizer_a_b 2 [""] = ([[1; 5]], [[5; 2]]).
Proof.
  rewrite token_to_ids_empty by lia.
  rewrite tokenizer_a_b_unknown; [done|].
  rewrite !not_elem_of_cons. repeat split; try done. apply not_elem_of_nil.
Qed.

(** C2. The tokenizer built from the vocabulary [['a', 'b']] with
    [num_oov_buckets = 1] maps [a] to 3 and [b] to 4; on the tokens string
    ["a b"] with [max_length = 4] the id sequence is [[1, 3, 4, 2]] and the
    batch transform returns [x = [1, 3, 4, 0]] and [y = [3, 4, 2, 0]]. *)
Theorem tokenizer_round_trip_a_b
    (GFile : string -> result (list string)) (fingerprint64 : string -> N) :
  StackoverflowTokenizer GFile (Some ["a"; "b"]) default_vocab_size 1
  = Ok tokenizer_a_b
  /\ int64_add (table_lookup fingerprint64 tokenizer_a_b "a") 3 = 3
  /\ int64_add (table_lookup fingerprint64 tokenizer_a_b "b") 3 = 4
  /\ token_ids_row fingerprint64 tokenizer_a_b "a b" = [1; 3; 4; 2]
  /\ token_to_ids fingerprint64 tokenizer_a_b 4 ["a b"]
     = ([[1; 3; 4; 0]], [[3; 4; 2; 0]])
  /\ preprocess_batch fingerprint64 tokenizer_a_b 4
       {[ "tokens" := BytesArray ["a b"] ]}
     = Ok {[ "x" := Int32Matrix 4 [[1; 3; 4; 0]];
             "y" := Int32Matrix 4 [[3; 4; 2; 0]] ]}.
Proof.
  repeat split; by vm_compute.
Qed.

(** C1, the claim as written, fails: with the vocabulary [['a', 'b']],
    the tokens string ["a b"] and [max_length = 4] the ids are
    [[1, 3, 4, 2]]; [x] before padding is [[1, 3, 4]], and
    [ids[0 : 4]] is [[1, 3, 4, 2]]. No hash function makes them equal. *)
Lemma x_is_not_the_ids_prefix :
  ~ exists fingerprint64 : string -> N,
      let ids := token_ids_row fingerprint64 tokenizer_a_b "a b" in
      take 4 (x_ragged_row ids) = slice 0 4 ids.
Proof.
  intros [h H]. vm_compute in H. discriminate H.
Qed.

(** C1 (amended). With [ids] the 32-bit ids of an example (BOS, the offset
    ids of the space-split words, EOS), [x] before padding is
    [ids[0 : min(max_length, len(ids) - 1)]], the ids without the last one
    cut to [max_length], and [y] before padding is [ids[1 : max_length + 1]];
    each is then filled up with PAD to [max_length]. The 32-bit ids are the
    ids themselves whenever these fit 32 bits. *)
Theorem token_to_ids_teacher_forcing (fingerprint64 : string -> N)
    (self : StaticVocabularyTable) (max_length : nat) (tokens : list string) :
  let ids := fun s => map cast_int32 (token_ids_row fingerprint64 self s) in
  let x := fun s =>
    slice 0 (Z.min (Z.of_nat max_length) (Z.of_nat (length (ids s)) - 1)) (ids s) in
  let y := fun s => slice 1 (Z.of_nat max_length + 1) (ids s) in
  token_to_ids fingerprint64 self max_length tokens
  = (map (fun s => x s ++ replicate (max_length - length (x s)) PAD) tokens,
     map (fun s => y s ++ replicate (max_length - length (y s)) PAD) tokens)
  /\ (forall s, Forall in_int32 (token_ids_row fingerprint64 self s) ->
        ids s = token_ids_row fingerprint64 self s).
Proof.
  intros ids x y. split; [|intros s; apply map_cast_int32_id].
  rewrite token_to_ids_rows. f_equal; apply map_ext; intros s;
    rewrite row_to_tensor_take; unfold x, y, ids, x_ragged_row, y_ragged_row.
  - rewrite firstn_map, take_slice_to_last, !slice_map, !length_map. done.
  - rewrite firstn_map, take_slice_from_first, !slice_map, !length_map. done.
Qed.




Lemma Forall_map_cast_int32 (P : Z -> Prop) (l : list Z) :
  (forall z, P z -> in_int32 z) -> Forall P l -> Forall P (map cast_int32 l).
Proof.
  intros HP Hl. rewrite map_cast_int32_id; [done|].
  eapply Forall_impl; [exact Hl | exact HP].
Qed.

Lemma length_x_ragged_row ids :
  length (x_ragged_row ids) = (length ids - 1)%nat.
Proof.
  unfold x_ragged_row. rewrite length_map, slice_to_last, length_take. lia.
Qed.

Lemma length_y_ragged_row ids :
  length (y_ragged_row ids) = (length ids - 1)%nat.
Proof.
  unfold y_ragged_row. by rewrite length_map, slice_from_first, length_drop.
Qed.

Lemma Forall_in_int32_map_cast l : Forall in_int32 (map cast_int32 l).
Proof. apply Forall_map, Forall_forall. intros z _. apply cast_int32_range. Qed.



(** ** The range of the ids *)

Lemma Forall_x_ragged_row (P : Z -> Prop) ids :
  (forall z, P z -> in_int32 z) -> Forall P ids -> Forall P (x_ragged_row ids).
Proof.
  intros HP Hids. unfold x_ragged_row, slice_to.
  apply Forall_map_cast_int32; [done|]. by apply Forall_take.
Qed.

Lemma Forall_y_ragged_row (P : Z -> Prop) ids :
  (forall z, P z -> in_int32 z) -> Forall P ids -> Forall P (y_ragged_row ids).
Proof.
  intros HP Hids. unfold y_ragged_row, slice_from.
  apply Forall_map_cast_int32; [done|]. by apply Forall_drop.
Qed.

Lemma tokenizer_a_b_wide_empty_row (fingerprint64 : string -> N) :
  fingerprint64 "" = fingerprint64_empty ->
  token_to_ids fingerprint64 tokenizer_a_b_wide 2 [""]
  = ([[1; -260570028]], [[-260570028; 2]]).
Proof.
  intros Hhash. rewrite token_to_ids_empty by lia.
  assert (Hw : table_lookup fingerprint64 tokenizer_a_b_wide "" = 4034397265).
  { unfold table_lookup.
    change (index_of "" (table_keys tokenizer_a_b_wide)) with (@None nat).
    rewrite Hhash. reflexivity. }
  rewrite Hw. reflexivity.
Qed.

(** C5, the claim as written, fails: the tokenizer over [['a', 'b']] with
    [10 ^ 10] buckets is built, the empty word gets the id
    [5 + k2 mod 10 ^ 10 = 4034397268], inside [[3, V + 3 + B)], and the
    cast of the output to 32 bits turns it into [-260570028]: on the
    empty tokens string [x] is [[1, -260570028]], which holds a negative
    id. *)
Lemma output_id_is_negative :
  ~ exists fingerprint64 : string -> N,
      fingerprint64 "" = fingerprint64_empty
      /\ StackoverflowTokenizer (fun _ => Raise OSError) (Some ["a"; "b"])
           default_vocab_size 10000000000 = Ok tokenizer_a_b_wide
      /\ Forall (Forall (fun z => 0 <= z < 2 + 3 + 10000000000))
                (token_to_ids fingerprint64 tokenizer_a_b_wide 2 [""]).1.
Proof.
  intros (h & Hhash & _ & Hrows).
  rewrite (tokenizer_a_b_wide_empty_row h Hhash) in Hrows. simpl in Hrows.
  apply Forall_cons in Hrows as [Hrow _].
  apply Forall_cons in Hrow as [_ Hrow].
  apply Forall_cons in Hrow as [Hneg _]. lia.
Qed.

(** C5 (amended). For a tokenizer that was built, with [V] words in its
    table and [B] buckets: when [V + 3 + B <= 2 ^ 63] (the 64-bit integers
    of the lookup do not overflow), every id the lookup and the offset
    produce lies in [[3, V + 3 + B)], so it is none of PAD, BOS and EOS;
    the word at position [i] of the vocabulary has id [i + 3], and a word
    outside the vocabulary has an id in [[V + 3, V + 3 + B)]. When
    [V + 3 + B <= 2 ^ 31] (the ids fit the 32-bit integers of the output),
    every entry of [x] and [y] is a non-negative integer below
    [V + 3 + B]. *)
Theorem lookup_ids_in_range (GFile : string -> result (list string))
    (fingerprint64 : string -> N) (vocab : option (list string))
    (vocab_size : option Z) (buckets : Z) (self : StaticVocabularyTable) :
  StackoverflowTokenizer GFile vocab vocab_size buckets = Ok self ->
  let V := vocab_len self in
  let B := num_oov_buckets self in
  B = buckets /\ 0 < B
  /\ (V + 3 + B <= 2 ^ 63 ->
      forall w : string,
        let id := int64_add (table_lookup fingerprint64 self w) 3 in
        3 <= id < V + 3 + B
        /\ id <> PAD /\ id <> BOS /\ id <> EOS
        /\ (forall i : nat, table_keys self !! i = Some w -> id = Z.of_nat i + 3)
        /\ (w ∉ table_keys self -> V + 3 <= id < V + 3 + B))
  /\ (V + 3 + B <= 2 ^ 31 ->
      forall (max_length : nat) (tokens : list string),
        Forall (Forall (fun z => 0 <= z < V + 3 + B))
               (token_to_ids fingerprint64 self max_length tokens).1
        /\ Forall (Forall (fun z => 0 <= z < V + 3 + B))
                  (token_to_ids fingerprint64 self max_length tokens).2).
Proof.
  intros Hself V B.
  apply StackoverflowTokenizer_Ok in Hself as (_ & HB & Hpos & Hnd).
  assert (HB0 : 0 < B) by (unfold B; lia).
  split; [done|]. split; [done|]. split.
  - intros Hfit w id.
    pose proof (offset_id_range fingerprint64 self w HB0 Hfit) as Hr.
    pose proof (offset_id_exact fingerprint64 self w HB0 Hfit) as He.
    fold id in Hr, He. fold V B in Hr.
    split; [done|]. unfold PAD, BOS, EOS.
    split; [lia|]. split; [lia|]. split; [lia|]. split.
    + intros i Hi. by rewrite (index_of_NoDup w _ i Hnd Hi) in He.
    + intros Hw. apply index_of_None in Hw. rewrite Hw in He.
      pose proof (Z.mod_pos_bound (Z.of_N (fingerprint64 w)) _ HB0).
      fold V B in He. lia.
  - intros Hfit max_length tokens.
    change (2 ^ 31) with 2147483648 in Hfit.
    assert (H63 : V + 3 + B <= 2 ^ 63)
      by (change (2 ^ 63) with 9223372036854775808; lia).
    assert (HP : forall z, 0 <= z < V + 3 + B -> in_int32 z)
      by (intros z Hz; apply in_int32_unfold; lia).
    assert (HV : 0 <= V) by (unfold V, vocab_len; lia).
    rewrite token_to_ids_rows. simpl.
    split; apply Forall_map, Forall_forall; intros s _;
      (apply Forall_row_to_tensor; [unfold PAD; lia|]).
    + apply Forall_x_ragged_row; [done|]. by apply token_ids_row_range.
    + apply Forall_y_ragged_row; [done|]. by apply token_ids_row_range.
Qed.

Lemma lookup_ids_in_range_witness :
  3 <= int64_add (table_lookup (fun _ => 7%N) tokenizer_a_b "zebra") 3 < 2 + 3 + 1
  /\ Forall (Forall (fun z => 0 <= z < 2 + 3 + 1))
            (token_to_ids (fun _ => 7%N) tokenizer_a_b 3 ["a zebra b"; ""]).1.
Proof.
  pose proof (lookup_ids_in_range (fun _ => Raise OSError) (fun _ => 7%N)
                (Some ["a"; "b"]) default_vocab_size 1 tokenizer_a_b eq_refl)
    as (_ & _ & H64 & H32).
  split.
  - apply (H64 ltac:(by vm_compute) "zebra").
  - apply (H32 ltac:(by vm_compute) 3%nat ["a zebra b"; ""]).
Defined.

(** ** The dataset loader *)

Lemma SPLITS_elem_of split :
  split ∈ SPLITS <-> split = "train" \/ split = "held_out" \/ split = "test".
Proof.
  unfold SPLITS. rewrite !elem_of_cons, elem_of_nil. tauto.
Qed.

(** C6. With [mode = 'sqlite'] and a split in [SPLITS], [load_split]
    returns the handle the store opens on the downloaded file (its result
    is that of the two collaborators, so it is a handle whenever they
    succeed). It raises [ValueError] and returns no handle whenever the
    split is any other string, whenever [cache_dir] is given while the mode
    is not ['sqlite'], and whenever the mode is not ['sqlite']. *)
Theorem load_split_outcomes (FederatedData : Type)
    (maybe_download : string -> option string -> result string)
    (SQLiteFederatedData_new : string -> result FederatedData)
    (split mode : string) (cache_dir : option string) :
  let load := load_split FederatedData maybe_download SQLiteFederatedData_new in
  (split ∈ SPLITS -> mode = "sqlite" ->
     load split mode cache_dir
     = (path ← maybe_download (split_url split) cache_dir;
        SQLiteFederatedData_new path)
     /\ forall path handle,
          maybe_download (split_url split) cache_dir = Ok path ->
          SQLiteFederatedData_new path = Ok handle ->
          load split mode cache_dir = Ok handle)
  /\ (split ∉ SPLITS ->
        load split mode cache_dir = Raise (ValueError (InvalidSplit split)))
  /\ (cache_dir <> None -> mode <> "sqlite" ->
        exists why, load split mode cache_dir = Raise (ValueError why))
  /\ (mode <> "sqlite" ->
        exists why, load split mode cache_dir = Raise (ValueError why)).
Proof.
  intros load. unfold load, load_split. repeat split.
  - rewrite decide_False by tauto.
    rewrite decide_False by tauto. by rewrite decide_True.
  - intros path handle Hpath Hhandle.
    rewrite decide_False by tauto.
    rewrite decide_False by tauto. rewrite decide_True by done.
    by rewrite Hpath.
  - intros Hsplit. by rewrite decide_True.
  - intros Hcache Hmode. destruct (decide (split ∉ SPLITS)); [by eexists|].
    rewrite decide_True by done. by eexists.
  - intros Hmode. destruct (decide (split ∉ SPLITS)); [by eexists|].
    destruct (decide (cache_dir ≠ None ∧ mode ≠ "sqlite")); [by eexists|].
    rewrite decide_False by done. by eexists.
Qed.

Lemma load_split_outcomes_witness :
  load_split string (fun url _ => Ok url) (fun path => Ok path)
    "held_out" "sqlite" (Some "/tmp/cache")
  = Ok "https://storage.googleapis.com/gresearch/fedjax/stackoverflow/stackoverflow_held_out.sqlite"
  /\ load_split string (fun url _ => Ok url) (fun path => Ok path)
       "validation" "sqlite" None
     = Raise (ValueError (InvalidSplit "validation")).
Proof.
  pose proof (load_split_outcomes string (fun url _ => Ok url)
                (fun path => Ok path) "held_out" "sqlite" (Some "/tmp/cache"))
    as (Hok & _).
  pose proof (load_split_outcomes string (fun url _ => Ok url)
                (fun path => Ok path) "validation" "sqlite" None)
    as (_ & Hbad & _).
  split.
  - apply (proj2 (Hok ltac:(by apply SPLITS_elem_of; auto) eq_refl) _ _ eq_refl eq_refl).
  - apply Hbad. rewrite SPLITS_elem_of. by intros [|[|]].
Defined.

(** C7. On a client record with a bytes array [type] and a [tokens]
    feature, [preprocess_client] returns the record with the two fields
    [domain_id] and [tokens] and no other: [domain_id] is the 32-bit array
    holding 1 where [type] is [b'answer'] and 0 elsewhere, [tokens] is
    unchanged. The result does not depend on [client_id]. *)
Theorem preprocess_client_fields (client_id : string)
    (examples : gmap string ndarray) (type : list string) (tokens : ndarray) :
  examples !! "type" = Some (BytesArray type) ->
  examples !! "tokens" = Some tokens ->
  exists out,
    preprocess_client client_id examples = Ok out
    /\ out !! "domain_id"
       = Some (Int32Array (map (fun t => if decide (t = "answer") then 1 else 0) type))
    /\ out !! "tokens" = Some tokens
    /\ dom out = {[ "domain_id"; "tokens" ]}
    /\ (forall name, name <> "domain_id" -> name <> "tokens" -> out !! name = None)
    /\ Forall in_int32 (map is_answer type)
    /\ length (map is_answer type) = length type
    /\ (forall other_id,
          preprocess_client other_id examples = preprocess_client client_id examples).
Proof.
  intros Htype Htokens. unfold preprocess_client. rewrite Htype, Htokens.
  eexists. split; [reflexivity|].
  split; [by simplify_map_eq|]. split; [by simplify_map_eq|].
  split; [rewrite !dom_insert_L, dom_empty_L; set_solver|].
  split; [intros name H1 H2; by simplify_map_eq|].
  split; [|split; [apply length_map | done]].
  apply Forall_map, Forall_forall. intros t _. apply in_int32_unfold.
  unfold is_answer. case_decide; lia.
Qed.

Lemma preprocess_client_fields_witness :
  exists out,
    preprocess_client "client_0"
      {[ "type" := BytesArray ["question"; "answer"];
         "tokens" := BytesArray ["how to"; "like this"];
         "score" := Int64Array [3; 5];
         "title" := BytesArray ["t"; ""] ]} = Ok out
    /\ out !! "domain_id" = Some (Int32Array [0; 1])
    /\ out !! "tokens" = Some (BytesArray ["how to"; "like this"])
    /\ out !! "score" = None
    /\ out !! "type" = None.
Proof.
  destruct (preprocess_client_fields "client_0"
              {[ "type" := BytesArray ["question"; "answer"];
                 "tokens" := BytesArray ["how to"; "like this"];
                 "score" := Int64Array [3; 5];
                 "title" := BytesArray ["t"; ""] ]}
              ["question"; "answer"] (BytesArray ["how to"; "like this"])
              ltac:(by vm_compute) ltac:(by vm_compute))
    as (out & Hout & Hdomain & Htokens & _ & Hother & _).
  exists out. split; [exact Hout|]. split; [exact Hdomain|].
  split; [exact Htokens|]. split; by apply Hother.
Defined.

(** ** The vocabulary loader *)

Lemma unpack_word_Ok line :
  length (split_whitespace line) = 2%nat ->
  unpack_word line = Ok (first_field line).
Proof.
  unfold unpack_word, first_field.
  by destruct (split_whitespace line) as [|a [|b [|c l]]].
Qed.

Lemma unpack_word_Raise line :
  length (split_whitespace line) <> 2%nat ->
  unpack_word line
  = Raise (ValueError (UnpackExpectedTwo (length (split_whitespace line)))).
Proof.
  unfold unpack_word.
  by destruct (split_whitespace line) as [|a [|b [|c l]]].
Qed.

Lemma default_vocab_loop_Ok lines vocab :
  Forall (fun line => length (split_whitespace line) = 2%nat) lines ->
  default_vocab_loop lines vocab = Ok (vocab ++ map first_field lines).
Proof.
  intros Hlines. revert vocab.
  induction Hlines as [|line lines Hline _ IH]; intros vocab; simpl.
  - by rewrite app_nil_r.
  - rewrite (unpack_word_Ok line Hline). simpl.
    by rewrite IH, <- app_assoc.
Qed.

Lemma default_vocab_loop_Raise lines vocab (i : nat) line :
  lines !! i = Some line ->
  length (split_whitespace line) <> 2%nat ->
  exists k : nat,
    k <> 2%nat
    /\ default_vocab_loop lines vocab = Raise (ValueError (UnpackExpectedTwo k)).
Proof.
  revert vocab i. induction lines as [|l lines IH]; intros vocab i Hi Hbad.
  - done.
  - simpl. destruct (decide (length (split_whitespace l) = 2%nat)) as [Hl|Hl].
    + rewrite (unpack_word_Ok l Hl). simpl.
      destruct i as [|i]; [by simplify_eq/=|].
      by apply (IH _ i).
    + rewrite (unpack_word_Raise l Hl). simpl. by eexists.
Qed.

Lemma default_vocab_loop_Ok_inv lines vocab out :
  default_vocab_loop lines vocab = Ok out ->
  Forall (fun line => length (split_whitespace line) = 2%nat) lines
  /\ out = vocab ++ map first_field lines.
Proof.
  revert vocab. induction lines as [|l lines IH]; intros vocab; simpl.
  - intros [= <-]. by rewrite app_nil_r.
  - destruct (decide (length (split_whitespace l) = 2%nat)) as [Hl|Hl].
    + rewrite (unpack_word_Ok l Hl). simpl. intros [Hlines ->]%IH.
      split; [by constructor | by rewrite <- app_assoc].
    + by rewrite (unpack_word_Raise l Hl).
Qed.

Lemma default_vocab_loop_iff lines out :
  default_vocab_loop lines [] = Ok out
  <-> Forall (fun line => length (split_whitespace line) = 2%nat) lines
      /\ out = map first_field lines.
Proof.
  split.
  - by intros [? ->]%default_vocab_loop_Ok_inv.
  - intros [Hlines ->]. by rewrite default_vocab_loop_Ok.
Qed.

Lemma sys_maxsize_unfold : sys_maxsize = 9223372036854775807.
Proof. reflexivity. Qed.

Lemma islice_in_range {A} (f : result (list A)) (n : Z) :
  0 < n <= sys_maxsize ->
  islice f (Some n) = (lines ← f; Ok (take (Z.to_nat n) lines)).
Proof.
  intros Hn. unfold islice.
  destruct (Z.ltb_spec n 0); [lia|].
  destruct (Z.ltb_spec sys_maxsize n); [lia|].
  by destruct (Z.eqb_spec n 0); [lia|].
Qed.

Lemma islice_out_of_range {A} (f : result (list A)) (n : Z) :
  n < 0 \/ sys_maxsize < n ->
  islice f (Some n) = Raise (ValueError IsliceStopOutOfRange).
Proof.
  intros Hn. unfold islice.
  destruct (Z.ltb_spec n 0); [done|].
  by destruct (Z.ltb_spec sys_maxsize n); [|lia].
Qed.

Lemma islice_zero {A} (f : result (list A)) : islice f (Some 0) = Ok [].
Proof. reflexivity. Qed.

Lemma islice_Ok_inv {A} (f : result (list A)) (stop : option Z) first :
  islice f stop = Ok first ->
  stop = Some 0 /\ first = []
  \/ exists lines,
       f = Ok lines
       /\ match stop with
          | None => first = lines
          | Some n => 0 < n <= sys_maxsize /\ first = take (Z.to_nat n) lines
          end.
Proof.
  destruct stop as [n|]; simpl; [|intros ->; right; by eexists].
  destruct (Z.ltb_spec n 0); [done|].
  destruct (Z.ltb_spec sys_maxsize n); [done|]. simpl.
  destruct (Z.eqb_spec n 0) as [->|]; [intros [= <-]; by left|].
  destruct f as [lines|]; [|done]. simpl. intros [= <-].
  right. exists lines. split; [done|]. split; [lia|done].
Qed.

Lemma default_vocab_Some GFile lines n :
  GFile word_count_path = Ok lines -> 0 <= n <= sys_maxsize ->
  default_vocab GFile (Some n) = default_vocab_loop (take (Z.to_nat n) lines) [].
Proof.
  intros Hfile Hn. unfold default_vocab.
  destruct (decide (n = 0)) as [->|]; [by rewrite islice_zero|].
  rewrite islice_in_range by lia. by rewrite Hfile.
Qed.

Lemma default_vocab_None GFile lines :
  GFile word_count_path = Ok lines ->
  default_vocab GFile None = default_vocab_loop lines [].
Proof. intros Hfile. unfold default_vocab. simpl. by rewrite Hfile. Qed.

Lemma default_vocab_Ok_inv GFile vocab_size vocab :
  default_vocab GFile vocab_size = Ok vocab ->
  exists first,
    islice (GFile word_count_path) vocab_size = Ok first
    /\ Forall (fun line => length (split_whitespace line) = 2%nat) first
    /\ vocab = map first_field first.
Proof.
  unfold default_vocab.
  destruct (islice (GFile word_count_path) vocab_size) as [first|]; [|done].
  simpl. intros [Hlines ->]%default_vocab_loop_Ok_inv. by exists first.
Qed.

(** C8. When the vocabulary file can be read and every line of it has
    exactly two whitespace-separated fields, [default_vocab(n)] (for a
    count [n] that [islice] accepts, from 0 to [sys.maxsize]) returns
    [min(n, number of lines)] words: word number [i] is the first field of
    line number [i]. *)
Theorem default_vocab_first_words (GFile : string -> result (list string))
    (lines : list string) (n : Z) :
  GFile word_count_path = Ok lines ->
  Forall (fun line => length (split_whitespace line) = 2%nat) lines ->
  0 <= n <= sys_maxsize ->
  exists vocab : list string,
    default_vocab GFile (Some n) = Ok vocab
    /\ length vocab = Nat.min (Z.to_nat n) (length lines)
    /\ vocab = map first_field (take (Z.to_nat n) lines)
    /\ (forall i : nat, (i < length vocab)%nat ->
          exists line word count,
            lines !! i = Some line
            /\ split_whitespace line = [word; count]
            /\ vocab !! i = Some word).
Proof.
  intros Hfile Hlines Hn. rewrite (default_vocab_Some GFile lines n) by done.
  rewrite default_vocab_loop_Ok by (by apply Forall_take). simpl.
  eexists. split; [reflexivity|].
  split; [by rewrite length_map, length_take|]. split; [done|].
  intros i Hi. rewrite length_map, length_take in Hi.
  destruct (lookup_lt_is_Some_2 lines i ltac:(lia)) as [line Hline].
  pose proof (proj1 (Forall_lookup _ _) Hlines i line Hline) as H2.
  simpl in H2.
  destruct (split_whitespace line) as [|word [|count [|c l]]] eqn:Hsplit;
    try done.
  exists line, word, count. split; [done|]. split; [done|].
  rewrite list_lookup_fmap, lookup_take_lt by lia. rewrite Hline. simpl.
  unfold first_field. by rewrite Hsplit.
Qed.

Lemma default_vocab_first_words_witness :
  default_vocab (fun _ => Ok ["the 1000" +:+ String "010" "";
                                "a 900" +:+ String "010" "";
                                "to 800" +:+ String "010" ""]) (Some 2)
  = Ok ["the"; "a"].
Proof.
  destruct (default_vocab_first_words
              (fun _ => Ok ["the 1000" +:+ String "010" "";
                              "a 900" +:+ String "010" "";
                              "to 800" +:+ String "010" ""])
              _ 2 eq_refl
              ltac:(by repeat constructor)
              ltac:(rewrite sys_maxsize_unfold; lia))
    as (vocab & Hvocab & _ & -> & _).
  exact Hvocab.
Defined.

(** C10. [default_vocab] fails with the [ValueError] of the tuple
    unpacking as soon as one of the lines it reads (the first [vocab_size]
    lines, for a [vocab_size] that [islice] accepts, or all of them for
    [vocab_size = None]) does not split into exactly two
    whitespace-separated fields: none (an empty line), one, or three and
    more. *)
Theorem default_vocab_unpack_error (GFile : string -> result (list string))
    (lines : list string) (i : nat) (line : string) :
  GFile word_count_path = Ok lines ->
  lines !! i = Some line ->
  length (split_whitespace line) <> 2%nat ->
  (forall n : Z, 0 <= n <= sys_maxsize -> (i < Z.to_nat n)%nat ->
     exists k : nat,
       k <> 2%nat
       /\ default_vocab GFile (Some n) = Raise (ValueError (UnpackExpectedTwo k)))
  /\ (exists k : nat,
        k <> 2%nat
        /\ default_vocab GFile None = Raise (ValueError (UnpackExpectedTwo k))).
Proof.
  intros Hfile Hline Hbad. split.
  - intros n Hn Hi. rewrite (default_vocab_Some GFile lines n) by done.
    apply (default_vocab_loop_Raise _ _ i line); [|done].
    by rewrite lookup_take_lt.
  - rewrite (default_vocab_None GFile lines) by done.
    by apply (default_vocab_loop_Raise _ _ i line).
Qed.

Lemma default_vocab_unpack_error_witness :
  exists k : nat,
    k <> 2%nat
    /\ default_vocab (fun _ => Ok ["the 1000"; String "010" ""; "a 900"]) (Some 2)
       = Raise (ValueError (UnpackExpectedTwo k)).
Proof.
  exact (proj1 (default_vocab_unpack_error
                  (fun _ => Ok ["the 1000"; String "010" ""; "a 900"])
                  _ 1 (String "010" "") eq_refl eq_refl
                  ltac:(by vm_compute))
           2 ltac:(rewrite sys_maxsize_unfold; lia) ltac:(lia)).
Defined.

(** ** The vocabulary of the tokenizer *)

Lemma length_word_of_nat k : String.length (word_of_nat k) = k.
Proof. induction k as [|k IH]; simpl; [done | by rewrite IH]. Qed.

Lemma word_of_nat_inj : Inj (=) (=) word_of_nat.
Proof.
  intros a b Hab. by rewrite <- (length_word_of_nat a), Hab, length_word_of_nat.
Qed.

Lemma NoDup_words k : NoDup (map word_of_nat (seq 0 k)).
Proof.
  apply (NoDup_fmap_2 word_of_nat (Inj0 := word_of_nat_inj)), NoDup_seq.
Qed.

Lemma NoDup_take_prefix {A} (n : nat) (l : list A) :
  NoDup l -> NoDup (take n l).
Proof.
  intros Hnd. rewrite <- (take_drop n l) in Hnd. by apply NoDup_app in Hnd as [? _].
Qed.

Lemma length_slice_to_le {A} (n : Z) (l : list A) :
  (length (slice_to n l) <= Nat.max (Z.to_nat n) (length l - 1))%nat.
Proof.
  unfold slice_to, slice_index. rewrite length_take.
  destruct (Z.ltb_spec n 0); lia.
Qed.

(** C9. With an explicit vocabulary, a [vocab_size] that is not [None]
    cuts the list to its first [vocab_size] words (for a count
    [vocab_size >= 0]). The default is 10000, so by default a vocabulary of
    more than 10000 words is cut to 10000 with no error. In the tokenizer
    built from a non-empty vocabulary of distinct words with
    [vocab_size > 0] (an empty table cannot be built), the words at the
    positions from [vocab_size] on are not in the table and get
    out-of-vocabulary ids. [vocab_size = None] keeps every vocabulary whole, and it is the
    only value that does. *)
Theorem explicit_vocab_truncated (GFile : string -> result (list string))
    (fingerprint64 : string -> N) (v : list string) :
  default_vocab_size = Some 10000
  /\ (forall n : Z, 0 <= n ->
        init_vocab GFile (Some v) (Some n) = Ok (take (Z.to_nat n) v))
  /\ (10000 < Z.of_nat (length v) ->
        exists kept,
          init_vocab GFile (Some v) default_vocab_size = Ok kept
          /\ kept = take (Z.to_nat 10000) v
          /\ Z.of_nat (length kept) = 10000
          /\ kept <> v)
  /\ (forall (n B : Z), 0 < n -> 0 < B -> v <> [] -> NoDup v ->
        exists self,
          StackoverflowTokenizer GFile (Some v) (Some n) B = Ok self
          /\ table_keys self = take (Z.to_nat n) v
          /\ num_oov_buckets self = B
          /\ forall (i : nat) (w : string),
               v !! i = Some w -> (Z.to_nat n <= i)%nat ->
               (w ∉ table_keys self)
               /\ (vocab_len self + 3 + B <= 2 ^ 63 ->
                   vocab_len self + 3
                   <= int64_add (table_lookup fingerprint64 self w) 3
                   < vocab_len self + 3 + B))
  /\ init_vocab GFile (Some v) None = Ok v
  /\ (forall n : Z,
        exists v' : list string,
          NoDup v' /\ init_vocab GFile (Some v') (Some n) <> Ok v').
Proof.
  split; [done|].
  assert (Hcut : forall n : Z, 0 <= n ->
            init_vocab GFile (Some v) (Some n) = Ok (take (Z.to_nat n) v))
    by (intros n Hn; simpl; by rewrite slice_to_nonneg).
  split; [done|]. split; [|split; [|split; [done|]]].
  - intros Hlong. exists (take (Z.to_nat 10000) v).
    split; [by apply (Hcut 10000)|]. split; [done|].
    assert (Hlen : Z.of_nat (length (take (Z.to_nat 10000) v)) = 10000)
      by (rewrite length_take; lia).
    split; [done|]. intros Heq. rewrite Heq in Hlen. lia.
  - intros n B Hn HB Hne Hnd.
    exists {| table_keys := take (Z.to_nat n) v; num_oov_buckets := B |}.
    unfold StackoverflowTokenizer. rewrite Hcut by lia. simpl.
    rewrite new_table_Ok; [|done| |by apply NoDup_take_prefix].
    2: { destruct v as [|a v]; [done|].
         by replace (Z.to_nat n) with (S (Z.to_nat n - 1)) by lia. }
    split; [done|]. split; [done|]. split; [done|].
    intros i w Hi Hge.
    assert (Hw : w ∉ take (Z.to_nat n) v).
    { intros [j Hj]%list_elem_of_lookup_1.
      apply lookup_take_Some in Hj as [Hj Hlt].
      pose proof (NoDup_lookup _ _ _ _ Hnd Hi Hj). lia. }
    split; [done|]. intros Hfit.
    set (self := {| table_keys := take (Z.to_nat n) v; num_oov_buckets := B |}).
    rewrite (offset_id_exact fingerprint64 self w HB Hfit).
    apply index_of_None in Hw. simpl. rewrite Hw.
    pose proof (Z.mod_pos_bound (Z.of_N (fingerprint64 w)) B HB). lia.
  - intros n. set (v' := map word_of_nat (seq 0 (S (Z.to_nat n)))).
    exists v'. split; [apply NoDup_words|]. unfold init_vocab. intros [= Heq].
    pose proof (length_slice_to_le n v') as Hlen. rewrite Heq in Hlen.
    unfold v' in Hlen. rewrite length_map, length_seq in Hlen. lia.
Qed.

Lemma explicit_vocab_truncated_witness :
  exists self,
    StackoverflowTokenizer (fun _ => Raise OSError) (Some ["a"; "b"; "c"]) (Some 2) 1
    = Ok self
    /\ table_keys self = ["a"; "b"]
    /\ "c" ∉ table_keys self.
Proof.
  destruct (explicit_vocab_truncated (fun _ => Raise OSError) (fun _ => 0%N)
              ["a"; "b"; "c"]) as (_ & _ & _ & Hbuild & _).
  destruct (Hbuild 2 1 ltac:(lia) ltac:(lia) ltac:(done)
              ltac:(apply (bool_decide_unpack _); by vm_compute))
    as (self & Hself & Hkeys & _ & Hoov).
  exists self. split; [exact Hself|]. split; [exact Hkeys|].
  exact (proj1 (Hoov 2%nat "c" eq_refl ltac:(lia))).
Defined.

(** * Further properties *)

(** ** Splitting and joining *)

Lemma split_on_cons_inv sep s : exists w ws, split_on sep s = w :: ws.
Proof.
  induction s as [|c s (w & ws & IH)]; simpl; [by eexists _, _|].
  destruct (decide (c = sep)); [by eexists _, _|].
  rewrite IH. by eexists _, _.
Qed.

Lemma length_split_on sep s :
  length (split_on sep s) = S (count_char sep s).
Proof.
  induction s as [|c s IH]; simpl; [done|].
  destruct (decide (c = sep)); simpl; [by rewrite IH|].
  destruct (split_on_cons_inv sep s) as (w & ws & Hs).
  rewrite Hs in IH |- *. simpl in *. done.
Qed.

Lemma split_on_no_sep sep s :
  Forall (fun w => count_char sep w = 0%nat) (split_on sep s).
Proof.
  induction s as [|c s IH]; simpl; [by repeat constructor|].
  destruct (decide (c = sep)) as [->|Hc]; [by constructor|].
  destruct (split_on_cons_inv sep s) as (w & ws & Hs).
  rewrite Hs in IH |- *. apply Forall_cons in IH as [Hw Hws].
  constructor; [|done]. simpl. by rewrite decide_False.
Qed.

Lemma join_split_on sep s : join_with sep (split_on sep s) = s.
Proof.
  induction s as [|c s IH]; simpl; [done|].
  destruct (split_on_cons_inv sep s) as (w & ws & Hs).
  destruct (decide (c = sep)) as [->|Hc].
  - rewrite Hs in IH |- *. simpl in IH |- *. by rewrite IH.
  - rewrite Hs in IH |- *. simpl in IH |- *.
    destruct ws; simpl; by rewrite <- IH.
Qed.

Lemma split_on_word sep w :
  count_char sep w = 0%nat -> split_on sep w = [w].
Proof.
  induction w as [|c w IH]; simpl; [done|].
  destruct (decide (c = sep)); [done|]. simpl. intros Hw. by rewrite IH.
Qed.

Lemma split_on_app sep w rest :
  count_char sep w = 0%nat ->
  split_on sep (w +:+ String sep rest) = w :: split_on sep rest.
Proof.
  induction w as [|c w IH]; simpl.
  - intros _. by rewrite decide_True.
  - destruct (decide (c = sep)); [done|]. simpl. intros Hw. by rewrite IH.
Qed.

Lemma split_on_join sep words :
  words <> [] ->
  Forall (fun w => count_char sep w = 0%nat) words ->
  split_on sep (join_with sep words) = words.
Proof.
  intros Hne Hwords. induction Hwords as [|w ws Hw Hws IH]; [done|].
  simpl. destruct ws as [|w' ws]; [by apply split_on_word|].
  rewrite split_on_app by done. f_equal. by apply IH.
Qed.

(** ** The shape of the rows *)

Lemma row_to_tensor_lookup_lt d cols row (i : nat) :
  (i < cols)%nat -> (i < length row)%nat ->
  row_to_tensor d cols row !! i = row !! i.
Proof.
  intros Hc Hr. unfold row_to_tensor.
  rewrite lookup_app_l by (rewrite length_take; lia).
  by rewrite lookup_take_lt.
Qed.

Lemma row_to_tensor_lookup_pad d cols row (i : nat) :
  (length row <= i)%nat -> (i < cols)%nat ->
  row_to_tensor d cols row !! i = Some d.
Proof.
  intros Hr Hc. unfold row_to_tensor.
  rewrite lookup_app_r by (rewrite length_take; lia).
  rewrite length_take. apply lookup_replicate_2. lia.
Qed.

Lemma token_to_ids_lookup fingerprint64 self max_length tokens (k : nat) s :
  tokens !! k = Some s ->
  (token_to_ids fingerprint64 self max_length tokens).1 !! k
  = Some (row_to_tensor PAD max_length
            (x_ragged_row (token_ids_row fingerprint64 self s)))
  /\ (token_to_ids fingerprint64 self max_length tokens).2 !! k
     = Some (row_to_tensor PAD max_length
               (y_ragged_row (token_ids_row fingerprint64 self s))).
Proof.
  intros Hs. rewrite token_to_ids_rows. simpl.
  by rewrite !list_lookup_fmap, Hs.
Qed.

Lemma token_ids_row_length fingerprint64 self s :
  length (token_ids_row fingerprint64 self s) = (count_char " " s + 3)%nat.
Proof. rewrite length_token_ids_row, length_split_on. lia. Qed.

Lemma ragged_rows_lookup (ids : list Z) (i : nat) :
  (S i < length ids - 1)%nat ->
  x_ragged_row ids !! S i = y_ragged_row ids !! i.
Proof.
  intros Hi. unfold x_ragged_row, y_ragged_row.
  rewrite slice_to_last, slice_from_first, !list_lookup_fmap.
  rewrite lookup_take_lt by lia. by rewrite lookup_drop.
Qed.

(** The ragged rows of a tokenizer that was built, when its ids fit 32
    bits: [x] is BOS and then the ids of the words, [y] is the ids of the
    words and then EOS. *)
Lemma ragged_rows_exact fingerprint64 self s :
  0 < num_oov_buckets self ->
  vocab_len self + 3 + num_oov_buckets self <= 2 ^ 31 ->
  exists mid : list Z,
    length mid = S (count_char " " s)
    /\ Forall (fun z => 3 <= z < vocab_len self + 3 + num_oov_buckets self) mid
    /\ token_ids_row fingerprint64 self s = [BOS] ++ mid ++ [EOS]
    /\ x_ragged_row (token_ids_row fingerprint64 self s) = BOS :: mid
    /\ y_ragged_row (token_ids_row fingerprint64 self s) = mid ++ [EOS].
Proof.
  intros HB Hfit. change (2 ^ 31) with 2147483648 in Hfit.
  assert (H63 : vocab_len self + 3 + num_oov_buckets self <= 2 ^ 63)
    by (change (2 ^ 63) with 9223372036854775808; lia).
  set (mid := map (fun w => int64_add (table_lookup fingerprint64 self w) 3)
                  (split_on " " s)).
  assert (Hmid : Forall (fun z => 3 <= z
                          < vocab_len self + 3 + num_oov_buckets self) mid).
  { apply Forall_map, Forall_forall. intros w _.
    by apply offset_id_range. }
  assert (H32 : Forall in_int32 mid).
  { eapply Forall_impl; [exact Hmid|]. intros z Hz. simpl in Hz.
    apply in_int32_unfold. lia. }
  exists mid. split; [unfold mid; by rewrite length_map, length_split_on|].
  split; [done|]. split; [done|].
  unfold x_ragged_row, y_ragged_row, token_ids_row. fold mid.
  rewrite slice_to_last, slice_from_first. split.
  - replace (length ([BOS] ++ mid ++ [EOS]) - 1)%nat with (length (BOS :: mid))
      by (simpl; rewrite length_app; simpl; lia).
    change ([BOS] ++ mid ++ [EOS]) with ((BOS :: mid) ++ [EOS]).
    rewrite take_app_length. simpl. by rewrite map_cast_int32_id.
  - simpl. rewrite drop_0, map_app, map_cast_int32_id by done. done.
Qed.

Lemma elem_of_row_to_tensor d cols row (z : Z) :
  z ∈ row_to_tensor d cols row -> z ∈ row \/ z = d.
Proof.
  unfold row_to_tensor. rewrite elem_of_app. intros [Hz|Hz].
  - left. by eapply subseteq_take.
  - right. by eapply elem_of_replicate_inv.
Qed.

(** X1. In every example, [y] is [x] moved one place to the left: the
    entry of [x] at place [i + 1] is the entry of [y] at place [i], for
    every place [i + 1] below [max_length] that still holds an id of the
    example (a tokens string with [c] spaces has [c + 2] such places). *)
Theorem y_is_x_shifted (fingerprint64 : string -> N)
    (self : StaticVocabularyTable) (max_length : nat) (tokens : list string)
    (k : nat) (s : string) (xrow yrow : list Z) (i : nat) :
  tokens !! k = Some s ->
  (token_to_ids fingerprint64 self max_length tokens).1 !! k = Some xrow ->
  (token_to_ids fingerprint64 self max_length tokens).2 !! k = Some yrow ->
  (S i < max_length)%nat ->
  (S i < count_char " " s + 2)%nat ->
  exists id : Z, xrow !! S i = Some id /\ yrow !! i = Some id.
Proof.
  intros Hs Hx Hy HL Hi.
  destruct (token_to_ids_lookup fingerprint64 self max_length tokens k s Hs)
    as [Hx' Hy'].
  rewrite Hx' in Hx. rewrite Hy' in Hy. simplify_eq.
  set (ids := token_ids_row fingerprint64 self s).
  assert (Hlen : length ids = (count_char " " s + 3)%nat)
    by apply token_ids_row_length.
  rewrite !row_to_tensor_lookup_lt
    by (rewrite ?length_x_ragged_row, ?length_y_ragged_row; lia).
  rewrite ragged_rows_lookup by lia.
  destruct (lookup_lt_is_Some_2 (y_ragged_row ids) i) as [id Hid].
  { rewrite length_y_ragged_row. lia. }
  by exists id.
Qed.

Lemma y_is_x_shifted_witness :
  exists id : Z,
    [1; 4; 3; 0] !! 2%nat = Some id /\ [4; 3; 2; 0] !! 1%nat = Some id.
Proof.
  exact (y_is_x_shifted (fun _ => 0%N) tokenizer_a_b 4 ["a"; "b a"] 1 "b a"
           [1; 4; 3; 0] [4; 3; 2; 0] 1 eq_refl eq_refl eq_refl
           ltac:(lia) ltac:(vm_compute; lia)).
Defined.

(** X2. For a tokenizer with a positive bucket count whose ids fit 32
    bits, and an example with [c] spaces in its tokens string (so
    [n = c + 2] entries before padding): [x] starts with BOS; below
    [max_length], an entry of [x] or of [y] is PAD exactly at the places
    from [n] on, so the padding tells the length; EOS never occurs in [x]
    and BOS never occurs in [y]; and EOS occurs in [y] exactly when the
    example was not cut, [n <= max_length]. *)
Theorem rows_markers_and_padding (fingerprint64 : string -> N)
    (self : StaticVocabularyTable) (max_length : nat) (tokens : list string)
    (k : nat) (s : string) (xrow yrow : list Z) :
  0 < num_oov_buckets self ->
  vocab_len self + 3 + num_oov_buckets self <= 2 ^ 31 ->
  tokens !! k = Some s ->
  (token_to_ids fingerprint64 self max_length tokens).1 !! k = Some xrow ->
  (token_to_ids fingerprint64 self max_length tokens).2 !! k = Some yrow ->
  let n := (count_char " " s + 2)%nat in
  ((0 < max_length)%nat -> xrow !! 0%nat = Some BOS)
  /\ (forall i : nat, (i < max_length)%nat ->
        (xrow !! i = Some PAD <-> (n <= i)%nat))
  /\ (forall i : nat, (i < max_length)%nat ->
        (yrow !! i = Some PAD <-> (n <= i)%nat))
  /\ (EOS ∉ xrow)
  /\ (BOS ∉ yrow)
  /\ (EOS ∈ yrow <-> (n <= max_length)%nat).
Proof.
  intros HB Hfit Hs Hx Hy n.
  destruct (token_to_ids_lookup fingerprint64 self max_length tokens k s Hs)
    as [Hx' Hy'].
  rewrite Hx' in Hx. rewrite Hy' in Hy. simplify_eq.
  destruct (ragged_rows_exact fingerprint64 self s HB Hfit)
    as (mid & Hlen & Hmid & _ & -> & ->).
  assert (Hn : n = S (length mid)) by (unfold n; lia). clearbody n. subst n.
  assert (Hge : forall (l : list Z) (i : nat) z,
            Forall (fun z => 1 <= z) l -> l !! i = Some z -> z <> PAD).
  { intros l i z Hl Hi. eapply Forall_lookup_1 in Hl; [|done].
    simpl in Hl. unfold PAD. lia. }
  assert (Hmask : forall (l : list Z) (i : nat),
            length l = S (length mid) -> Forall (fun z => 1 <= z) l ->
            (i < max_length)%nat ->
            (row_to_tensor PAD max_length l !! i = Some PAD
             <-> (S (length mid) <= i)%nat)).
  { intros l i Hl Hpos Hi. split.
    - intros Hpad. destruct (decide (i < length l)%nat) as [Hlt|]; [|lia].
      rewrite row_to_tensor_lookup_lt in Hpad by done.
      by eapply Hge in Hpad.
    - intros Hle. apply row_to_tensor_lookup_pad; lia. }
  assert (Hx1 : Forall (fun z => 1 <= z) (BOS :: mid)).
  { constructor; [done|]. eapply Forall_impl; [exact Hmid|].
    intros z Hz. simpl in Hz. lia. }
  assert (Hy1 : Forall (fun z => 1 <= z) (mid ++ [EOS])).
  { apply Forall_app. split; [|by repeat constructor].
    eapply Forall_impl; [exact Hmid|]. intros z Hz. simpl in Hz. lia. }
  split; [|split; [|split; [|split; [|split]]]].
  - intros HL. by rewrite row_to_tensor_lookup_lt by (simpl; lia).
  - intros i Hi. by apply Hmask.
  - intros i Hi. apply Hmask; [|done..]. rewrite length_app. simpl. lia.
  - intros [Hin|Hpad]%elem_of_row_to_tensor; [|done].
    apply elem_of_cons in Hin as [|Hin]; [done|].
    eapply Forall_forall in Hmid; [|done]. simpl in Hmid. unfold EOS in Hmid. lia.
  - intros [Hin|Hpad]%elem_of_row_to_tensor; [|done].
    apply elem_of_app in Hin as [Hin|Hin].
    + eapply Forall_forall in Hmid; [|done]. simpl in Hmid. unfold BOS in Hmid. lia.
    + by apply list_elem_of_singleton in Hin.
  - split.
    + intros Hin. destruct (decide (S (length mid) <= max_length)%nat); [done|].
      exfalso. revert Hin. unfold row_to_tensor.
      rewrite take_app_le by lia. rewrite elem_of_app.
      intros [Hin|Hin].
      * apply subseteq_take in Hin.
        eapply Forall_forall in Hmid; [|done]. simpl in Hmid.
        unfold EOS in Hmid. lia.
      * by apply elem_of_replicate_inv in Hin.
    + intros Hle. rewrite row_to_tensor_short
        by (rewrite length_app; simpl; lia).
      rewrite !elem_of_app. left. right. by apply list_elem_of_singleton.
Qed.

Lemma rows_markers_and_padding_witness :
  (EOS ∉ [1; 4; 3; 0]) /\ (EOS ∈ [4; 3; 2; 0] <-> (0 + 1 + 2 <= 4)%nat).
Proof.
  pose proof (rows_markers_and_padding (fun _ => 0%N) tokenizer_a_b 4
                ["a"; "b a"] 1 "b a" [1; 4; 3; 0] [4; 3; 2; 0]
                ltac:(by vm_compute) ltac:(by vm_compute)
                eq_refl eq_refl eq_refl) as (_ & _ & _ & Hx & _ & Hy).
  split; [exact Hx | exact Hy].
Defined.

(** ** Words and their ids *)

Lemma index_of_elem_of w keys : w ∈ keys -> exists i, index_of w keys = Some i.
Proof.
  intros Hw. destruct (index_of w keys) as [i|] eqn:Hi; [by exists i|].
  by apply index_of_None in Hi.
Qed.

Lemma offset_id_known fingerprint64 self w :
  0 < num_oov_buckets self ->
  vocab_len self + 3 + num_oov_buckets self <= 2 ^ 63 ->
  w ∈ table_keys self ->
  exists i : nat,
    table_keys self !! i = Some w
    /\ int64_add (table_lookup fingerprint64 self w) 3 = Z.of_nat i + 3.
Proof.
  intros HB Hfit [i Hi]%index_of_elem_of. exists i.
  split; [by apply index_of_Some|].
  by rewrite offset_id_exact, Hi.
Qed.

Lemma offset_id_inj_known fingerprint64 self w1 w2 :
  0 < num_oov_buckets self ->
  vocab_len self + 3 + num_oov_buckets self <= 2 ^ 63 ->
  w1 ∈ table_keys self ->
  int64_add (table_lookup fingerprint64 self w1) 3
  = int64_add (table_lookup fingerprint64 self w2) 3 ->
  w1 = w2.
Proof.
  intros HB Hfit Hw1.
  destruct (offset_id_known fingerprint64 self w1 HB Hfit Hw1) as (i & Hi & ->).
  rewrite (offset_id_exact fingerprint64 self w2 HB Hfit).
  destruct (index_of w2 (table_keys self)) as [j|] eqn:Hj.
  - intros Heq. assert (i = j) as -> by lia.
    apply index_of_Some in Hj. by simplify_eq.
  - apply lookup_lt_Some in Hi.
    pose proof (Z.mod_pos_bound (Z.of_N (fingerprint64 w2)) _ HB).
    unfold vocab_len. lia.
Qed.

(** X3. In a tokenizer that was built (ids below [2 ^ 63]), a word of the
    vocabulary shares its id with no other word, known or unknown, and
    the id gives the word back: it is the word at position [id - 3] of
    the vocabulary. *)
Theorem known_words_have_their_own_ids
    (GFile : string -> result (list string)) (fingerprint64 : string -> N)
    (vocab : option (list string)) (vocab_size : option Z) (buckets : Z)
    (self : StaticVocabularyTable) (w : string) :
  StackoverflowTokenizer GFile vocab vocab_size buckets = Ok self ->
  vocab_len self + 3 + buckets <= 2 ^ 63 ->
  w ∈ table_keys self ->
  let id := int64_add (table_lookup fingerprint64 self w) 3 in
  table_keys self !! Z.to_nat (id - 3) = Some w
  /\ 3 <= id < vocab_len self + 3
  /\ forall w' : string,
       int64_add (table_lookup fingerprint64 self w') 3 = id -> w' = w.
Proof.
  intros (_ & HB & Hpos & Hnd)%StackoverflowTokenizer_Ok Hfit Hw id.
  rewrite <- HB in Hfit, Hpos.
  destruct (offset_id_known fingerprint64 self w Hpos Hfit Hw) as (i & Hi & Hid).
  fold id in Hid. split; [|split].
  - rewrite Hid. by replace (Z.to_nat (Z.of_nat i + 3 - 3)) with i by lia.
  - apply lookup_lt_Some in Hi. unfold vocab_len. lia.
  - intros w' Hw'. symmetry.
    by apply (offset_id_inj_known fingerprint64 self w w' Hpos Hfit Hw).
Qed.

Lemma known_words_have_their_own_ids_witness :
  table_keys tokenizer_a_b
    !! Z.to_nat (int64_add (table_lookup (fun _ => 9%N) tokenizer_a_b "b") 3 - 3)
  = Some "b".
Proof.
  exact (proj1 (known_words_have_their_own_ids (fun _ => Raise OSError)
                  (fun _ => 9%N) (Some ["a"; "b"]) None 1 tokenizer_a_b "b"
                  eq_refl ltac:(by vm_compute)
                  ltac:(apply list_elem_of_lookup; by exists 1%nat))).
Defined.

(** X4. The batch transform splits on single spaces, so a vocabulary
    entry that contains a space is dead: in a tokenizer that was built
    (ids below [2 ^ 63]), its id occurs in the id sequence of no tokens
    string. *)
Theorem entry_with_space_is_never_produced
    (GFile : string -> result (list string)) (fingerprint64 : string -> N)
    (vocab : option (list string)) (vocab_size : option Z) (buckets : Z)
    (self : StaticVocabularyTable) (i : nat) (key : string) (tokens : string) :
  StackoverflowTokenizer GFile vocab vocab_size buckets = Ok self ->
  vocab_len self + 3 + buckets <= 2 ^ 63 ->
  table_keys self !! i = Some key ->
  count_char " " key <> 0%nat ->
  int64_add (table_lookup fingerprint64 self key) 3 = Z.of_nat i + 3
  /\ (Z.of_nat i + 3 ∉ token_ids_row fingerprint64 self tokens).
Proof.
  intros (_ & HB & Hpos & Hnd)%StackoverflowTokenizer_Ok Hfit Hkey Hspace.
  rewrite <- HB in Hfit, Hpos.
  assert (Hid : int64_add (table_lookup fingerprint64 self key) 3
                = Z.of_nat i + 3).
  { rewrite offset_id_exact by done.
    by rewrite (index_of_NoDup key _ i Hnd Hkey). }
  split; [done|]. unfold token_ids_row.
  rewrite !elem_of_app, !list_elem_of_singleton. unfold BOS, EOS.
  intros [?|[Hin|?]]; [lia| |lia].
  apply list_elem_of_fmap in Hin as (w & Hw & Hin).
  rewrite <- Hid in Hw.
  apply (offset_id_inj_known fingerprint64 self key w Hpos Hfit) in Hw;
    [|by eapply list_elem_of_lookup_2].
  subst w. pose proof (split_on_no_sep " " tokens) as Hno.
  eapply Forall_forall in Hno; [|done]. done.
Qed.

Lemma entry_with_space_is_never_produced_witness :
  0 + 3 ∉ token_ids_row (fun _ => 0%N)
            {| table_keys := ["new york"; "york"]; num_oov_buckets := 1 |}
            "new york new  york".
Proof.
  exact (proj2 (entry_with_space_is_never_produced (fun _ => Raise OSError)
                  (fun _ => 0%N) (Some ["new york"; "york"]) None 1
                  {| table_keys := ["new york"; "york"]; num_oov_buckets := 1 |}
                  0 "new york" "new york new  york"
                  eq_refl ltac:(by vm_compute) eq_refl ltac:(by vm_compute))).
Defined.

(** X5. Round trip. In a tokenizer that was built (ids below [2 ^ 63]),
    the tokens string made of vocabulary words without spaces, joined by
    single spaces, has the id sequence BOS, one id per word, EOS; reading
    each id as a position of the vocabulary ([id - 3]) gives the words
    back in order. *)
Theorem known_sentence_round_trip
    (GFile : string -> result (list string)) (fingerprint64 : string -> N)
    (vocab : option (list string)) (vocab_size : option Z) (buckets : Z)
    (self : StaticVocabularyTable) (words : list string) :
  StackoverflowTokenizer GFile vocab vocab_size buckets = Ok self ->
  vocab_len self + 3 + buckets <= 2 ^ 63 ->
  words <> [] ->
  Forall (fun w => w ∈ table_keys self /\ count_char " " w = 0%nat) words ->
  exists mid : list Z,
    token_ids_row fingerprint64 self (join_with " " words)
    = [BOS] ++ mid ++ [EOS]
    /\ length mid = length words
    /\ map (fun id => table_keys self !! Z.to_nat (id - 3)) mid
       = map Some words.
Proof.
  intros (_ & HB & Hpos & Hnd)%StackoverflowTokenizer_Ok Hfit Hne Hwords.
  rewrite <- HB in Hfit, Hpos.
  exists (map (fun w => int64_add (table_lookup fingerprint64 self w) 3) words).
  unfold token_ids_row. rewrite split_on_join; [|done|].
  2: { eapply Forall_impl; [exact Hwords|]. by intros w [_ ?]. }
  split; [done|]. split; [by rewrite length_map|].
  rewrite map_map. apply Forall_fmap_ext_1.
  eapply Forall_impl; [exact Hwords|]. intros w [Hw _]. simpl.
  destruct (offset_id_known fingerprint64 self w Hpos Hfit Hw) as (i & Hi & ->).
  by replace (Z.to_nat (Z.of_nat i + 3 - 3)) with i by lia.
Qed.

Lemma known_sentence_round_trip_witness :
  exists mid : list Z,
    token_ids_row (fun _ => 0%N) tokenizer_a_b "b a b" = [BOS] ++ mid ++ [EOS]
    /\ length mid = 3%nat
    /\ map (fun id => table_keys tokenizer_a_b !! Z.to_nat (id - 3)) mid
       = [Some "b"; Some "a"; Some "b"].
Proof.
  exact (known_sentence_round_trip (fun _ => Raise OSError) (fun _ => 0%N)
           (Some ["a"; "b"]) None 1 tokenizer_a_b ["b"; "a"; "b"]
           eq_refl ltac:(by vm_compute) ltac:(done)
           ltac:(repeat constructor; by (apply list_elem_of_lookup;
                   first [by exists 0%nat | by exists 1%nat]))).
Defined.

(** ** Records in and out of the batch transform *)

(** X6. The record the batch transform returns holds [x], [y] and, when
    the input has one, the input's [domain_id] unchanged; every other
    field of the input is dropped, and the result depends on the input's
    [tokens] and [domain_id] only. Without a [tokens] field the transform
    raises [KeyError]. *)
Theorem preprocess_batch_fields (fingerprint64 : string -> N)
    (self : StaticVocabularyTable) (max_length : nat)
    (examples : gmap string ndarray) :
  (examples !! "tokens" = None ->
     preprocess_batch fingerprint64 self max_length examples
     = Raise (KeyError "tokens"))
  /\ (forall out,
        preprocess_batch fingerprint64 self max_length examples = Ok out ->
        dom out = {[ "x"; "y" ]} ∪ (dom examples ∩ {[ "domain_id" ]})
        /\ out !! "domain_id" = examples !! "domain_id"
        /\ forall name, name <> "x" -> name <> "y" -> name <> "domain_id" ->
             out !! name = None)
  /\ (forall examples' : gmap string ndarray,
        examples' !! "tokens" = examples !! "tokens" ->
        examples' !! "domain_id" = examples !! "domain_id" ->
        preprocess_batch fingerprint64 self max_length examples'
        = preprocess_batch fingerprint64 self max_length examples).
Proof.
  unfold preprocess_batch. split; [by intros ->|]. split.
  - intros out.
    destruct (examples !! "tokens") as [[tokens| | |]|]; try done.
    destruct (token_to_ids fingerprint64 self max_length tokens) as [x y].
    destruct (examples !! "domain_id") as [d|] eqn:Hd; intros [= <-].
    + split; [|split].
      * apply elem_of_dom_2 in Hd.
        rewrite !dom_insert_L, dom_empty_L. clear -Hd.
        apply set_eq. intros name.
        rewrite !elem_of_union, elem_of_intersection, !elem_of_singleton.
        rewrite elem_of_empty. split; [|intros [[|]|[_ ->]]; auto].
        intros [->|[|[|[]]]]; auto.
      * apply lookup_insert_eq.
      * intros name Hx Hy Hdom. by rewrite !lookup_insert_ne.
    + split; [|split].
      * apply not_elem_of_dom in Hd.
        rewrite !dom_insert_L, dom_empty_L. clear -Hd.
        apply set_eq. intros name.
        rewrite !elem_of_union, elem_of_intersection, !elem_of_singleton.
        rewrite elem_of_empty. split; [intros [|[|[]]]; auto|].
        intros [[|]|[Hin ->]]; auto.
      * by rewrite !lookup_insert_ne.
      * intros name Hx Hy Hdom. by rewrite !lookup_insert_ne.
  - by intros examples' -> ->.
Qed.



(** X8. [preprocess_client] raises [KeyError] on a record that lacks
    [type] (also when [tokens] is missing as well: [type] is read first),
    and on a record whose [type] is a bytes array but that lacks
    [tokens]. *)
Theorem preprocess_client_missing_field (client_id : string)
    (examples : gmap string ndarray) :
  (examples !! "type" = None ->
     preprocess_client client_id examples = Raise (KeyError "type"))
  /\ (forall type, examples !! "type" = Some (BytesArray type) ->
        examples !! "tokens" = None ->
        preprocess_client client_id examples = Raise (KeyError "tokens"))
  /\ (forall out, preprocess_client client_id examples = Ok out ->
        is_Some (examples !! "type") /\ is_Some (examples !! "tokens")).
Proof.
  unfold preprocess_client. split; [by intros ->|]. split.
  - by intros type -> ->.
  - intros out. destruct (examples !! "type") as [[type| | |]|]; try done.
    destruct (examples !! "tokens"); [|done]. intros _. by split; eexists.
Qed.

(** ** Loading splits *)

Lemma string_app_length (a b : string) :
  String.length (a +:+ b) = (String.length a + String.length b)%nat.
Proof. induction a as [|c a IH]; simpl; [done | by rewrite IH]. Qed.

Lemma string_app_inv_tail (a b suffix : string) :
  a +:+ suffix = b +:+ suffix -> a = b.
Proof.
  revert b. induction a as [|c a IH]; intros [|c' b] Heq; simpl in *.
  - done.
  - apply (f_equal String.length) in Heq. simpl in Heq.
    rewrite !string_app_length in Heq. simpl in Heq. lia.
  - apply (f_equal String.length) in Heq. simpl in Heq.
    rewrite !string_app_length in Heq. simpl in Heq. lia.
  - injection Heq as -> Heq. by rewrite (IH b Heq).
Qed.

Lemma load_split_sqlite (FederatedData : Type)
    (maybe_download : string -> option string -> result string)
    (SQLiteFederatedData_new : string -> result FederatedData)
    (split : string) (cache_dir : option string) :
  split ∈ SPLITS ->
  load_split FederatedData maybe_download SQLiteFederatedData_new
    split "sqlite" cache_dir
  = (path ← maybe_download (split_url split) cache_dir;
     SQLiteFederatedData_new path).
Proof.
  intros Hsplit. unfold load_split.
  rewrite decide_False by tauto. rewrite decide_False by tauto.
  by rewrite decide_True.
Qed.

Lemma load_split_not_sqlite (FederatedData : Type)
    (maybe_download : string -> option string -> result string)
    (SQLiteFederatedData_new : string -> result FederatedData)
    (split mode : string) (cache_dir : option string) :
  split ∈ SPLITS -> mode <> "sqlite" ->
  load_split FederatedData maybe_download SQLiteFederatedData_new
    split mode cache_dir
  = Raise (ValueError (if decide (cache_dir = None) then UnsupportedMode mode
                       else CachingNeedsSqlite)).
Proof.
  intros Hsplit Hmode. unfold load_split.
  rewrite decide_False by tauto.
  destruct (decide (cache_dir = None)) as [->|Hcache].
  - rewrite decide_False by tauto. by rewrite decide_False.
  - by rewrite decide_True.
Qed.

(** X9. [load_split] returns a handle exactly when the split is one of
    [SPLITS], the mode is ['sqlite'], the download gives a path and the
    store opens it. For a known split and another mode the error tells
    why: the caching error when a [cache_dir] was given, the unsupported
    mode otherwise. When the arguments are rejected the outcome is the
    same whatever the collaborators would do: nothing is downloaded. *)
Theorem load_split_classified (FederatedData : Type)
    (maybe_download : string -> option string -> result string)
    (SQLiteFederatedData_new : string -> result FederatedData)
    (split mode : string) (cache_dir : option string) :
  let load := load_split FederatedData in
  (forall handle,
     load maybe_download SQLiteFederatedData_new split mode cache_dir = Ok handle
     <-> split ∈ SPLITS /\ mode = "sqlite"
         /\ exists path, maybe_download (split_url split) cache_dir = Ok path
                         /\ SQLiteFederatedData_new path = Ok handle)
  /\ (split ∈ SPLITS -> mode <> "sqlite" -> cache_dir <> None ->
        load maybe_download SQLiteFederatedData_new split mode cache_dir
        = Raise (ValueError CachingNeedsSqlite))
  /\ (split ∈ SPLITS -> mode <> "sqlite" -> cache_dir = None ->
        load maybe_download SQLiteFederatedData_new split mode cache_dir
        = Raise (ValueError (UnsupportedMode mode)))
  /\ (split ∉ SPLITS \/ mode <> "sqlite" ->
        forall maybe_download' SQLiteFederatedData_new',
          load maybe_download' SQLiteFederatedData_new' split mode cache_dir
          = load maybe_download SQLiteFederatedData_new split mode cache_dir).
Proof.
  intros load. unfold load. split; [|split; [|split]].
  - intros handle. split.
    + unfold load_split.
      destruct (decide (split ∉ SPLITS)) as [|Hsplit%dec_stable]; [done|].
      destruct (decide (cache_dir ≠ None ∧ mode ≠ "sqlite")); [done|].
      destruct (decide (mode = "sqlite")) as [->|]; [|done].
      destruct (maybe_download (split_url split) cache_dir) as [path|] eqn:Hp;
        [|done].
      intros Hnew. split; [done|]. split; [done|]. by exists path.
    + intros (Hsplit & -> & path & Hpath & Hnew).
      rewrite load_split_sqlite by done. by rewrite Hpath.
  - intros Hsplit Hmode Hcache. rewrite load_split_not_sqlite by done.
    by rewrite decide_False.
  - intros Hsplit Hmode ->. by rewrite load_split_not_sqlite.
  - intros Hbad md' new'. unfold load_split.
    destruct (decide (split ∉ SPLITS)); [done|].
    destruct (decide (cache_dir ≠ None ∧ mode ≠ "sqlite")); [done|].
    destruct Hbad as [|Hmode]; [done|]. by rewrite !decide_False.
Qed.

(** X10. The URL of a split determines the split: two splits have the
    same URL only when they are the same split, so the three splits are
    fetched from three different URLs and the download cache keeps them
    apart. *)
Theorem split_url_inj (split1 split2 : string) :
  (split_url split1 = split_url split2 <-> split1 = split2)
  /\ NoDup (map split_url SPLITS).
Proof.
  assert (Hinj : forall a b, split_url a = split_url b -> a = b).
  { unfold split_url. intros a b Heq.
    apply String.app_inj in Heq. by apply string_app_inv_tail in Heq. }
  split; [split; [apply Hinj | by intros ->]|].
  apply (NoDup_fmap_2 split_url (Inj0 := Hinj)).
  apply (bool_decide_unpack _). by vm_compute.
Qed.

(** X11. [load_data] loads the splits in the order train, held_out, test
    and returns the three handles, each with [preprocess_client] attached,
    exactly when the mode is ['sqlite'] and all three loads succeed. With
    another mode it raises the [ValueError] of the first [load_split]; with
    ['sqlite'] the first load that fails ends it with that load's error. *)
Theorem load_data_outcomes (FederatedData : Type)
    (maybe_download : string -> option string -> result string)
    (SQLiteFederatedData_new : string -> result FederatedData)
    (fd_preprocess_client :
       FederatedData ->
       (string -> gmap string ndarray -> result (gmap string ndarray)) ->
       FederatedData)
    (mode : string) (cache_dir : option string) :
  let load := load_data FederatedData maybe_download SQLiteFederatedData_new
                fd_preprocess_client mode cache_dir in
  let fetch := fun split =>
    path ← maybe_download (split_url split) cache_dir;
    SQLiteFederatedData_new path in
  let attach := fun handle => fd_preprocess_client handle preprocess_client in
  (forall triple,
     load = Ok triple
     <-> mode = "sqlite"
         /\ exists train held_out test,
              fetch "train" = Ok train /\ fetch "held_out" = Ok held_out
              /\ fetch "test" = Ok test
              /\ triple = (attach train, attach held_out, attach test))
  /\ (mode <> "sqlite" ->
        load = Raise (ValueError (if decide (cache_dir = None)
                                  then UnsupportedMode mode
                                  else CachingNeedsSqlite)))
  /\ (mode = "sqlite" ->
        (forall e, fetch "train" = Raise e -> load = Raise e)
        /\ (forall train e, fetch "train" = Ok train ->
              fetch "held_out" = Raise e -> load = Raise e)
        /\ (forall train held_out e, fetch "train" = Ok train ->
              fetch "held_out" = Ok held_out ->
              fetch "test" = Raise e -> load = Raise e)).
Proof.
  intros load fetch attach.
  assert (Htrain : "train" ∈ SPLITS) by (apply SPLITS_elem_of; auto).
  assert (Hheld : "held_out" ∈ SPLITS) by (apply SPLITS_elem_of; auto).
  assert (Htest : "test" ∈ SPLITS) by (apply SPLITS_elem_of; auto).
  assert (Hbad : mode <> "sqlite" ->
            load = Raise (ValueError (if decide (cache_dir = None)
                                      then UnsupportedMode mode
                                      else CachingNeedsSqlite))).
  { intros Hmode. unfold load, load_data.
    by rewrite (load_split_not_sqlite _ _ _ "train") by done. }
  assert (Hgood : mode = "sqlite" ->
            load = (train ← fetch "train"; held_out ← fetch "held_out";
                    test ← fetch "test";
                    Ok (attach train, attach held_out, attach test))).
  { intros ->. unfold load, load_data.
    by rewrite !load_split_sqlite by done. }
  split; [|split; [done|]].
  - intros triple. split.
    + destruct (decide (mode = "sqlite")) as [Hmode|Hmode].
      * rewrite (Hgood Hmode).
        destruct (fetch "train") as [train|]; [|done].
        destruct (fetch "held_out") as [held_out|]; [|done].
        destruct (fetch "test") as [test|]; [|done].
        intros [= <-]. split; [done|]. by exists train, held_out, test.
      * by rewrite (Hbad Hmode).
    + intros (Hmode & train & held_out & test & H1 & H2 & H3 & ->).
      rewrite (Hgood Hmode), H1, H2, H3. done.
  - intros Hmode. rewrite (Hgood Hmode). split; [|split].
    + by intros e ->.
    + by intros train e -> ->.
    + by intros train held_out e -> -> ->.
Qed.

Lemma load_data_outcomes_witness :
  load_data string (fun url _ => Ok url) (fun path => Ok path)
    (fun handle _ => handle) "sqlite" None
  = Ok (split_url "train", split_url "held_out", split_url "test").
Proof.
  apply (proj1 (load_data_outcomes string (fun url _ => Ok url)
                  (fun path => Ok path) (fun handle _ => handle)
                  "sqlite" None)).
  split; [done|]. by eexists _, _, _.
Defined.

(** ** More on the vocabulary loader *)

(** X12. When the file opens, [default_vocab(n)] for a count [n] that
    [islice] accepts (from 0 to [sys.maxsize]) succeeds exactly when each
    of the first [n] lines has two fields, and then returns their first
    fields; the lines after the first [n] are never looked at, so a
    malformed line there does no harm. With [vocab_size = None] every line
    is read. *)
Theorem default_vocab_reads_first_lines
    (GFile : string -> result (list string)) (lines : list string) (n : Z) :
  GFile word_count_path = Ok lines ->
  0 <= n <= sys_maxsize ->
  (forall vocab,
     default_vocab GFile (Some n) = Ok vocab
     <-> Forall (fun line => length (split_whitespace line) = 2%nat)
                (take (Z.to_nat n) lines)
         /\ vocab = map first_field (take (Z.to_nat n) lines))
  /\ (forall (GFile' : string -> result (list string)) lines',
        GFile' word_count_path = Ok lines' ->
        take (Z.to_nat n) lines' = take (Z.to_nat n) lines ->
        default_vocab GFile' (Some n) = default_vocab GFile (Some n))
  /\ (forall vocab,
        default_vocab GFile None = Ok vocab
        <-> Forall (fun line => length (split_whitespace line) = 2%nat) lines
            /\ vocab = map first_field lines).
Proof.
  intros Hfile Hn. split; [|split].
  - intros vocab. rewrite (default_vocab_Some GFile lines n) by done.
    apply default_vocab_loop_iff.
  - intros GFile' lines' Hfile' Htake.
    rewrite (default_vocab_Some GFile lines n) by done.
    rewrite (default_vocab_Some GFile' lines' n) by done. by rewrite Htake.
  - intros vocab. rewrite (default_vocab_None GFile lines) by done.
    apply default_vocab_loop_iff.
Qed.

Lemma default_vocab_reads_first_lines_witness :
  default_vocab (fun _ => Ok ["the 1000"; "a 900"; "not a line at all"]) (Some 2)
  = Ok ["the"; "a"].
Proof.
  apply (proj1 (default_vocab_reads_first_lines
                  (fun _ => Ok ["the 1000"; "a 900"; "not a line at all"])
                  _ 2 eq_refl ltac:(rewrite sys_maxsize_unfold; lia))).
  split; [by repeat constructor | reflexivity].
Defined.

(** X13. Edge cases of [default_vocab]. The stop of [islice] is checked
    before the file is read: a [vocab_size] below 0 or above
    [sys.maxsize] raises the [ValueError] of [islice] whether the file
    can be opened or not. [vocab_size = 0] reads nothing and returns the
    empty list, also when the file cannot be opened. For every other
    [vocab_size] ([None] or a count from 1 to [sys.maxsize]) the error of
    opening the file is the outcome. *)
Theorem default_vocab_edge_cases (GFile : string -> result (list string)) :
  (forall n : Z,
     n < 0 \/ sys_maxsize < n ->
     default_vocab GFile (Some n) = Raise (ValueError IsliceStopOutOfRange))
  /\ default_vocab GFile (Some 0) = Ok []
  /\ (forall e,
        GFile word_count_path = Raise e ->
        default_vocab GFile None = Raise e
        /\ forall n : Z, 0 < n <= sys_maxsize ->
             default_vocab GFile (Some n) = Raise e).
Proof.
  unfold default_vocab. split; [|split].
  - intros n Hn. by rewrite islice_out_of_range.
  - done.
  - intros e He. split; [simpl; by rewrite He|].
    intros n Hn. rewrite islice_in_range by done. by rewrite He.
Qed.

(** X14. Asking for fewer words gives a prefix: when [default_vocab(m)]
    succeeds and [0 <= n <= m], [default_vocab(n)] succeeds as well and
    returns the first [n] words of the longer list. *)
Theorem default_vocab_prefix (GFile : string -> result (list string))
    (lines : list string) (n m : Z) (big : list string) :
  GFile word_count_path = Ok lines ->
  0 <= n <= m ->
  default_vocab GFile (Some m) = Ok big ->
  default_vocab GFile (Some n) = Ok (take (Z.to_nat n) big).
Proof.
  intros Hfile Hnm Hbig.
  assert (Hm : m <= sys_maxsize).
  { destruct (decide (m <= sys_maxsize)) as [|Hm]; [done|].
    unfold default_vocab in Hbig.
    by rewrite islice_out_of_range in Hbig by lia. }
  revert Hbig.
  rewrite (default_vocab_Some GFile lines m) by (done || lia).
  rewrite (default_vocab_Some GFile lines n) by (done || lia).
  intros [Hlines ->]%default_vocab_loop_iff. apply default_vocab_loop_iff.
  assert (Htake : take (Z.to_nat n) lines
                  = take (Z.to_nat n) (take (Z.to_nat m) lines))
    by (rewrite take_take; f_equal; lia).
  split.
  - rewrite Htake. by apply Forall_take.
  - by rewrite firstn_map, <- Htake.
Qed.

Lemma default_vocab_prefix_witness :
  default_vocab (fun _ => Ok ["the 1000"; "a 900"; "to 800"]) (Some 1)
  = Ok (take (Z.to_nat 1) ["the"; "a"; "to"]).
Proof.
  exact (default_vocab_prefix (fun _ => Ok ["the 1000"; "a 900"; "to 800"])
           _ 1 3 ["the"; "a"; "to"] eq_refl ltac:(lia) eq_refl).
Defined.

Lemma split_whitespace_cons c s :
  split_whitespace (String c s)
  = if is_space c then split_whitespace s
    else match s with
         | EmptyString => [String c EmptyString]
         | String c' _ =>
             if is_space c' then String c EmptyString :: split_whitespace s
             else match split_whitespace s with
                  | w :: ws => String c w :: ws
                  | [] => [String c EmptyString]
                  end
         end.
Proof. by destruct s. Qed.

Lemma split_whitespace_fields s :
  Forall (fun w => w <> "" /\ all_chars (fun c => negb (is_space c)) w = true)
         (split_whitespace s).
Proof.
  induction s as [|c s IH]; [constructor|].
  rewrite split_whitespace_cons.
  destruct (is_space c) eqn:Hc; [done|].
  assert (Hone : String c "" <> ""
                 /\ all_chars (fun c => negb (is_space c)) (String c "") = true)
    by (split; [done | simpl; by rewrite Hc]).
  destruct s as [|c' s']; [by constructor|].
  destruct (is_space c'); [by constructor|].
  destruct (split_whitespace (String c' s')) as [|w ws]; [by constructor|].
  apply Forall_cons in IH as [[_ Hw] Hws].
  constructor; [|done]. split; [done|]. simpl. by rewrite Hc, Hw.
Qed.

Lemma all_chars_no_space w :
  all_chars (fun c => negb (is_space c)) w = true -> count_char " " w = 0%nat.
Proof.
  induction w as [|c w IH]; simpl; [done|].
  intros [Hc Hw]%andb_prop. rewrite (IH Hw).
  destruct (decide (c = " "%char)) as [->|]; [done|]. done.
Qed.

Lemma first_field_clean line :
  length (split_whitespace line) = 2%nat ->
  first_field line <> ""
  /\ all_chars (fun c => negb (is_space c)) (first_field line) = true.
Proof.
  intros Hline. pose proof (split_whitespace_fields line) as Hf.
  unfold first_field.
  destruct (split_whitespace line) as [|w ws]; [done|].
  by apply Forall_cons in Hf as [? _].
Qed.

(** X15. Every word [default_vocab] returns is non-empty and holds no
    whitespace character, so no space: each word of the default
    vocabulary is a word the split on spaces can produce. *)
Theorem default_vocab_words_are_clean
    (GFile : string -> result (list string)) (vocab_size : option Z)
    (vocab : list string) :
  default_vocab GFile vocab_size = Ok vocab ->
  Forall (fun w => w <> ""
                   /\ all_chars (fun c => negb (is_space c)) w = true
                   /\ count_char " " w = 0%nat
                   /\ split_on " " w = [w]) vocab.
Proof.
  intros (first & _ & Hlines & ->)%default_vocab_Ok_inv.
  apply Forall_map. eapply Forall_impl; [exact Hlines|].
  intros line Hline. simpl in Hline |- *.
  destruct (first_field_clean line Hline) as [Hne Hclean].
  pose proof (all_chars_no_space _ Hclean) as Hno.
  split; [done|]. split; [done|]. split; [done|]. by apply split_on_word.
Qed.

Lemma default_vocab_words_are_clean_witness :
  Forall (fun w => w <> ""
                   /\ all_chars (fun c => negb (is_space c)) w = true
                   /\ count_char " " w = 0%nat
                   /\ split_on " " w = [w]) ["the"; "a"].
Proof.
  exact (default_vocab_words_are_clean
           (fun _ => Ok ["  the" +:+ String "009" "1000"; "a 900"; "to 800"])
           (Some 2) ["the"; "a"] eq_refl).
Defined.

(** X16. A negative [vocab_size] behaves in two ways. With an explicit
    vocabulary the slice [vocab[:vocab_size]] drops the last
    [-vocab_size] words and raises nothing; with the default vocabulary
    (and a file that opens) the constructor fails with the [ValueError]
    of [islice]. *)
Theorem negative_vocab_size (GFile : string -> result (list string))
    (v : list string) (n buckets : Z) :
  n < 0 ->
  init_vocab GFile (Some v) (Some n)
  = Ok (take (length v - Z.to_nat (- n)) v)
  /\ (forall lines, GFile word_count_path = Ok lines ->
        StackoverflowTokenizer GFile None (Some n) buckets
        = Raise (ValueError IsliceStopOutOfRange)).
Proof.
  intros Hn. split.
  - simpl. unfold slice_to, slice_index.
    destruct (Z.ltb_spec n 0); [|lia]. do 2 f_equal. lia.
  - intros lines Hfile. unfold StackoverflowTokenizer, init_vocab, default_vocab.
    by rewrite islice_out_of_range by lia.
Qed.

Lemma negative_vocab_size_witness :
  init_vocab (fun _ => Ok []) (Some ["a"; "b"; "c"]) (Some (-1))
  = Ok ["a"; "b"].
Proof.
  exact (proj1 (negative_vocab_size (fun _ => Ok []) ["a"; "b"; "c"] (-1) 1
                  ltac:(lia))).
Defined.

(** X17. The default vocabulary keeps the order of the file. In a
    tokenizer built with [vocab = None] (ids below [2 ^ 63]), the word at
    position [i] of the table is the first field of line [i] of the file,
    that line has two fields, and the id of the word is [i + 3]. *)
Theorem default_vocabulary_ids (GFile : string -> result (list string))
    (fingerprint64 : string -> N) (lines : list string)
    (vocab_size : option Z) (buckets : Z) (self : StaticVocabularyTable)
    (i : nat) (word : string) :
  GFile word_count_path = Ok lines ->
  StackoverflowTokenizer GFile None vocab_size buckets = Ok self ->
  vocab_len self + 3 + buckets <= 2 ^ 63 ->
  table_keys self !! i = Some word ->
  (exists line count,
     lines !! i = Some line /\ split_whitespace line = [word; count])
  /\ int64_add (table_lookup fingerprint64 self word) 3 = Z.of_nat i + 3
  /\ match vocab_size with
     | Some n => Z.of_nat i < n
     | None => True
     end.
Proof.
  intros Hfile Hself Hfit Hword.
  apply StackoverflowTokenizer_Ok in Hself as (Hvocab & HB & Hpos & Hnd).
  rewrite <- HB in Hfit, Hpos. split; [|split].
  - simpl in Hvocab.
    apply default_vocab_Ok_inv in Hvocab as (first & Hfirst & Hlines & Hkeys).
    rewrite Hkeys, list_lookup_fmap in Hword.
    destruct (first !! i) as [line|] eqn:Hline; [|done].
    simpl in Hword. injection Hword as <-.
    pose proof (Forall_lookup_1 _ _ _ _ Hlines Hline) as H2. simpl in H2.
    assert (Hin : lines !! i = Some line).
    { apply islice_Ok_inv in Hfirst as [[_ ->]|(lines' & Hlines' & Hcut)];
        [done|].
      rewrite Hfile in Hlines'. injection Hlines' as <-.
      destruct vocab_size as [n|]; [|by subst first].
      destruct Hcut as [_ ->]. by apply lookup_take_Some in Hline as [? _]. }
    unfold first_field.
    destruct (split_whitespace line) as [|w [|count [|c l]]] eqn:Hsplit;
      try done.
    exists line, count. by rewrite Hsplit.
  - rewrite offset_id_exact by done.
    by rewrite (index_of_NoDup word _ i Hnd Hword).
  - destruct vocab_size as [n|]; [|done].
    simpl in Hvocab.
    apply default_vocab_Ok_inv in Hvocab as (first & Hfirst & _ & Hkeys).
    apply lookup_lt_Some in Hword. rewrite Hkeys, length_map in Hword.
    apply islice_Ok_inv in Hfirst as [[_ ->]|(lines' & _ & _ & ->)];
      [simpl in Hword; lia|].
    rewrite length_take in Hword. lia.
Qed.

Lemma default_vocabulary_ids_witness :
  int64_add (table_lookup (fun _ => 0%N) tokenizer_a_b "b") 3 = 1 + 3.
Proof.
  exact (proj1 (proj2 (default_vocabulary_ids
                         (fun _ => Ok ["a 10"; "b 9"; "c 8"]) (fun _ => 0%N)
                         ["a 10"; "b 9"; "c 8"] (Some 2) 1 tokenizer_a_b
                         1 "b" eq_refl eq_refl ltac:(by vm_compute) eq_refl))).
Defined.

(** ** More on the batch transform *)

(** X18. With one out-of-vocabulary bucket, the default, the hash plays
    no part: in a tokenizer that was built (ids below [2 ^ 63]) every
    word outside the vocabulary gets the same id, [V + 3], the first id
    after the vocabulary. *)
Theorem single_bucket_unknown_id (GFile : string -> result (list string))
    (fingerprint64 : string -> N) (vocab : option (list string))
    (vocab_size : option Z) (self : StaticVocabularyTable) (w : string) :
  StackoverflowTokenizer GFile vocab vocab_size default_num_oov_buckets
  = Ok self ->
  vocab_len self + 4 <= 2 ^ 63 ->
  w ∉ table_keys self ->
  int64_add (table_lookup fingerprint64 self w) 3 = vocab_len self + 3.
Proof.
  intros (_ & HB & _ & _)%StackoverflowTokenizer_Ok Hfit Hw.
  unfold default_num_oov_buckets in HB.
  rewrite offset_id_exact by (rewrite HB; lia).
  apply index_of_None in Hw. rewrite Hw, HB, Z.mod_1_r. lia.
Qed.

Lemma single_bucket_unknown_id_witness :
  int64_add (table_lookup (fun _ => 12345%N) tokenizer_a_b "zebra") 3 = 2 + 3.
Proof.
  exact (single_bucket_unknown_id (fun _ => Raise OSError) (fun _ => 12345%N)
           (Some ["a"; "b"]) None tokenizer_a_b "zebra" eq_refl
           ltac:(by vm_compute)
           ltac:(by apply index_of_None)).
Defined.

Lemma take_row_to_tensor d (small large : nat) row :
  (small <= large)%nat ->
  take small (row_to_tensor d large row) = row_to_tensor d small row.
Proof.
  intros Hle. unfold row_to_tensor.
  rewrite take_app, take_take, take_replicate, length_take.
  f_equal; [f_equal; lia|]. f_equal. lia.
Qed.

(** X19. A smaller [max_length] gives the beginning of the rows of a
    larger one: for [small <= large], cutting every row computed with
    [max_length = large] to its first [small] entries gives the rows
    computed with [max_length = small]. *)
Theorem smaller_max_length_is_a_prefix (fingerprint64 : string -> N)
    (self : StaticVocabularyTable) (small large : nat) (tokens : list string) :
  (small <= large)%nat ->
  token_to_ids fingerprint64 self small tokens
  = (map (take small) (token_to_ids fingerprint64 self large tokens).1,
     map (take small) (token_to_ids fingerprint64 self large tokens).2).
Proof.
  intros Hle. rewrite !token_to_ids_rows. simpl. rewrite !map_map.
  f_equal; apply map_ext; intros s; by rewrite take_row_to_tensor.
Qed.

Lemma smaller_max_length_is_a_prefix_witness :
  token_to_ids (fun _ => 0%N) tokenizer_a_b 2 ["a b a"; "b"]
  = (map (take 2) [[1; 3; 4; 3; 0]; [1; 4; 0; 0; 0]],
     map (take 2) [[3; 4; 3; 2; 0]; [4; 2; 0; 0; 0]]).
Proof.
  exact (smaller_max_length_is_a_prefix (fun _ => 0%N) tokenizer_a_b 2 5
           ["a b a"; "b"] ltac:(lia)).
Defined.

(** X20. The rows of a batch do not depend on one another: the examples
    are padded to [max_length], not to the longest example, so the
    arrays of two batches put one after the other are the arrays of each
    batch put one after the other. *)
Theorem batches_concatenate (fingerprint64 : string -> N)
    (self : StaticVocabularyTable) (max_length : nat)
    (tokens1 tokens2 : list string) :
  token_to_ids fingerprint64 self max_length (tokens1 ++ tokens2)
  = ((token_to_ids fingerprint64 self max_length tokens1).1
       ++ (token_to_ids fingerprint64 self max_length tokens2).1,
     (token_to_ids fingerprint64 self max_length tokens1).2
       ++ (token_to_ids fingerprint64 self max_length tokens2).2).
Proof.
  rewrite !token_to_ids_rows. simpl. by rewrite !map_app.
Qed.
